(** * ISP notebooks: tone synthesis callback and fade envelopes

    A shallow embedding of the code cells of the audio notebook that carry
    logic: the chord table, the streaming callback made by
    [generate_callback], and the envelopes [fade_in] and [fade_out].

    Numbers.  NumPy computes in binary64; here every float is a real
    number ([R]), so the statements are about the exact values the code
    approximates.  Python integers are [Z], lengths and indices are [nat].
    Where a rounding decides a length, in [int(sampling_rate * duration)],
    module [Rounded] takes the product as the machine returns it.

    Arrays.  A one-dimensional array is a [list R]; the output buffer of
    the audio driver, of shape (frames, channels), is a list of rows. *)

From Stdlib Require Import Reals Lra ZArith Ascii String.
From stdpp Require Import gmap strings list.

Open Scope R_scope.

(** ** Python outcomes *)

Module Py.

(** The exceptions the modelled cells can raise. *)
Inductive exn : Type :=
| ValueError (msg : string)
| UnboundLocalError (var : string).

(** What a call does: it returns, it raises, or it waits for ever
    (a blocking [Queue.get] on a queue nobody fills). *)
Inductive outcome (A : Type) : Type :=
| Ok (a : A)
| Raise (e : exn)
| Blocks.

Arguments Ok {A} a.
Arguments Raise {A} e.
Arguments Blocks {A}.

#[global] Instance outcome_bind : MBind outcome := fun A B k m =>
  match m with
  | Ok a => k a
  | Raise e => Raise e
  | Blocks => Blocks
  end.

(** [int(x)] of a float: truncation towards zero. *)
Definition int (x : R) : Z :=
  if Rle_dec 0 x then Int_part x else (- Int_part (- x))%Z.

End Py.

(** ** The NumPy operations the cells use *)

Module Np.
Import Py.

(** [np.arange(n)] *)
Definition arange (n : nat) : list Z := Z.of_nat <$> seq 0 n.

(** [np.linspace(start, stop, num, endpoint=False)]: [num] points
    [start + k * (stop - start) / num]; a negative [num] is refused. *)
Definition linspace (start stop : R) (num : Z) : outcome (list R) :=
  if (num <? 0)%Z
  then Raise (ValueError "Number of samples, num, must be non-negative.")
  else Ok ((fun k => IZR k * ((stop - start) / IZR num) + start)
             <$> arange (Z.to_nat num)).

(** The error of an operation whose operands do not fit: NumPy's message
    also names the shapes. *)
Definition broadcast_error : exn :=
  ValueError "operands could not be broadcast together".

(** [out[:] = 0] on a two-dimensional buffer. *)
Definition fill_zero (out : list (list R)) : list (list R) :=
  map (map (fun _ => 0)) out.

(** [out[:] += col] where [col] has shape (n, 1) and [out] has shape
    (m, channels).  Broadcasting succeeds when [n = m] (row [i] gets
    [col[i]] on every channel) or when [n = 1] (every row gets
    [col[0]]); otherwise NumPy raises and [out] is left as it was. *)
Definition iadd_column (out : list (list R)) (col : list R)
  : outcome (list (list R)) :=
  if decide (length col = length out)
  then Ok (zip_with (fun row v => map (fun x => x + v) row) out col)
  else match col with
       | [v] => Ok (map (map (fun x => x + v)) out)
       | _ => Raise broadcast_error
       end.

End Np.

(** ** The chord table *)

Module Chords.

(** The literal dictionary of the notebook: chord code to note labels. *)
Definition chord_labels : list (string * list string) :=
  [ ("C",  ["C3"; "E3"; "G3"; "C4"; "E4"]);
    ("Cm", ["C3"; "Eb3"; "G3"; "C4"; "Eb4"]);
    ("D",  ["D3"; "F#3"; "A3"; "D4"; "F#4"]);
    ("Dm", ["D3"; "F3"; "A3"; "D4"; "F4"]);
    ("E",  ["E2"; "B2"; "G#3"; "B3"; "E4"]);
    ("Em", ["E2"; "B2"; "G3"; "B3"; "E4"]);
    ("F",  ["F3"; "A3"; "C4"; "F4"; "A4"]);
    ("Fm", ["F3"; "Ab3"; "C4"; "F4"; "Ab4"]);
    ("G",  ["G2"; "B2"; "D3"; "G3"; "B3"]);
    ("Gm", ["G2"; "Bb2"; "D3"; "G3"; "Bb3"]);
    ("A",  ["A2"; "E3"; "A3"; "C#4"; "A4"]);
    ("Am", ["A2"; "E3"; "A3"; "C4"; "A4"]);
    ("B",  ["B2"; "F#3"; "B3"; "D#4"; "F#4"]);
    ("Bm", ["B2"; "F#3"; "B3"; "D4"; "F#4"]) ].

(** [int(c)] of a one-character string, for the ASCII characters the
    labels of the literal are made of. *)
Definition digit (c : ascii) : option Z :=
  let n := nat_of_ascii c in
  if decide (48 <= n <= 57)%nat then Some (Z.of_nat (n - 48)) else None.

(** [note[-1]] and [note[:-1]]. *)
Fixpoint split_last (s : string) : option (string * ascii) :=
  match s with
  | EmptyString => None
  | String c EmptyString => Some (EmptyString, c)
  | String c rest =>
      match split_last rest with
      | Some (init, l) => Some (String c init, l)
      | None => None
      end
  end.

Section Table.
(** The table of note frequencies read from [data/notes.csv], indexed
    by octave (row) and note name (column).  The file is not part of
    the sources, so the table is a parameter.  It is total: the
    [KeyError] of [df_notes.loc] on an octave or a name the table lacks
    is not modelled, the labels of the literal all being in the table. *)
Variable df_notes : Z -> string -> R.

(** [note2freq]: [None] stands for the exception raised on a label
    that does not end in a digit. *)
Definition note2freq (note : string) : option R :=
  match split_last note with
  | Some (name, c) =>
      match digit c with
      | Some octave => Some (df_notes octave name)
      | None => None
      end
  | None => None
  end.

(** [{k: list(map(note2freq, code)) for k, code in chords_dict.items()}] *)
Definition chords_dict_cell : option (gmap string (list R)) :=
  entries ← mapM (fun kc : string * list string =>
                    fs ← mapM note2freq kc.2; Some (kc.1, fs))
                 chord_labels;
  Some (list_to_map entries).

(** The global [chords_dict] once the cell has run (it raises nothing:
    every label of the literal parses). *)
Definition chords_dict : gmap string (list R) :=
  default ∅ chords_dict_cell.
End Table.

(** A table for examples: the frequencies of octave 0, rounded, doubled
    with every octave. *)
Definition example_notes (octave : Z) (name : string) : R :=
  (if decide (name = "C") then 16.35
   else if decide (name = "D") then 18.35
   else if decide (name = "E") then 20.60
   else if decide (name = "F") then 21.83
   else if decide (name = "G") then 24.50
   else if decide (name = "A") then 27.50
   else if decide (name = "B") then 30.87
   else 0) * 2 ^ Z.to_nat octave.

End Chords.

(** ** Streaming: the callback made by [generate_callback] *)

Module Stream.
Import Py Np.

(** *** The parameter channel: [queue.Queue] of chord codes

    The contents are listed oldest first.  [get] is the blocking
    [Queue.get()]: on an empty queue it waits. *)
Definition empty (q : list string) : bool := bool_decide (q = []).

Definition put (item : string) (q : list string) : list string := q ++ [item].

Definition get (q : list string) : outcome (string * list string) :=
  match q with
  | [] => Blocks
  | code :: rest => Ok (code, rest)
  end.

(** *** The closure

    What a callback object owns: the variables captured from
    [generate_callback] ([amplitude], [sampling_rate], [queue], and
    [freqs], which the callback rebinds through [nonlocal]) and its
    attribute [counter].  [queue = None] is the default argument; a
    present queue is shared with the controller, which only appends. *)
Record closure : Type := Closure {
  amplitude : R;
  freqs : list R;
  sampling_rate : R;
  queue : option (list string);
  counter : Z
}.

(** [if queue is not None and not queue.empty(): code = queue.get()]:
    the code taken, if any, and the queue afterwards. *)
Definition try_consume (queue : option (list string))
  : outcome (option string * option (list string)) :=
  match queue with
  | Some q =>
      if negb (empty q)
      then '(code, rest) ← get q; Ok (Some code, Some rest)
      else Ok (None, Some q)
  | None => Ok (None, None)
  end.

(** [t = (callback.counter + np.arange(frames)) / sampling_rate] *)
Definition time_vector (counter : Z) (frames : nat) (sampling_rate : R) : list R :=
  (fun k => IZR (counter + k) / sampling_rate) <$> arange frames.

(** [amplitude * np.sin(2 * np.pi * f * t)], a column. *)
Definition sine_column (amplitude f : R) (t : list R) : list R :=
  (fun ti => amplitude * sin (2 * PI * f * ti)) <$> t.

(** [for f in freqs: outdata[:] += amplitude * np.sin(2 * np.pi * f * t)].
    The buffer is returned as the loop left it, also when an addition
    raises. *)
Fixpoint add_sines (amplitude : R) (t : list R) (fs : list R)
    (outdata : list (list R)) : list (list R) * outcome unit :=
  match fs with
  | [] => (outdata, Ok tt)
  | f :: fs' =>
      match iadd_column outdata (sine_column amplitude f t) with
      | Ok outdata' => add_sines amplitude t fs' outdata'
      | Raise e => (outdata, Raise e)
      | Blocks => (outdata, Blocks)
      end
  end.

Section Callback.
(** The global [chords_dict] the callback reads. *)
Variable chords_dict : gmap string (list R).

(** [freqs = chords_dict.get(code, freqs)], when a code was taken. *)
Definition select_freqs (code : option string) (freqs : list R) : list R :=
  match code with
  | Some c => default freqs (chords_dict !! c)
  | None => freqs
  end.

(** [callback(outdata, frames, time, status)].  [time] is unused and
    [status] is only printed, so neither is an argument here.  The
    result is the closure and the buffer after the call, and how the
    call ended. *)
Definition callback (cb : closure) (outdata : list (list R)) (frames : nat)
  : closure * list (list R) * outcome unit :=
  match try_consume (queue cb) with
  | Ok (code, queue') =>
      let freqs' := select_freqs code (freqs cb) in
      let cb1 := Closure (amplitude cb) freqs' (sampling_rate cb) queue' (counter cb) in
      let t := time_vector (counter cb) frames (sampling_rate cb) in
      match add_sines (amplitude cb) t freqs' (fill_zero outdata) with
      | (outdata', Ok _) =>
          (Closure (amplitude cb) freqs' (sampling_rate cb) queue'
                   (counter cb + Z.of_nat frames),
           outdata', Ok tt)
      | (outdata', bad) => (cb1, outdata', bad)
      end
  | Raise e => (cb, outdata, Raise e)
  | Blocks => (cb, outdata, Blocks)
  end.
End Callback.

(** [generate_callback(amplitude, freqs, sampling_rate, queue=None)] *)
Definition generate_callback (amplitude : R) (freqs : list R)
    (sampling_rate : R) (queue : option (list string)) : closure :=
  Closure amplitude freqs sampling_rate queue 0.

(** [queue.put(ret)] by the controller, on the queue the closure shares. *)
Definition post (code : string) (cb : closure) : closure :=
  Closure (amplitude cb) (freqs cb) (sampling_rate cb)
          (put code <$> queue cb) (counter cb).

(** *** A stream, as the two streaming cells run it

    Each cell first makes its callback with [generate_callback] and then
    enters [with sd.OutputStream(callback=callback, ...)]; while the
    block runs the driver requests buffers and the controller may post
    codes; leaving the block stops the stream. *)
Inductive stream : Type :=
| Idle
| Active (cb : closure).

Inductive event : Type :=
| Start (amplitude : R) (freqs : list R) (sampling_rate : R)
        (queue : option (list string))
| Request (outdata : list (list R)) (frames : nat)
| Post (code : string)
| Stop.

(** One event.  [None]: the event cannot happen in that state, or the
    callback did not return (what the driver does then is not in the
    sources). *)
Definition step (chords_dict : gmap string (list R)) (s : stream) (e : event)
  : option stream :=
  match s, e with
  | Idle, Start a fs r q => Some (Active (generate_callback a fs r q))
  | Active cb, Request outdata frames =>
      match callback chords_dict cb outdata frames with
      | (cb', _, Ok _) => Some (Active cb')
      | _ => None
      end
  | Active cb, Post code => Some (Active (post code cb))
  | Active cb, Stop => Some Idle
  | _, _ => None
  end.

Fixpoint run (chords_dict : gmap string (list R)) (s : stream) (es : list event)
  : option stream :=
  match es with
  | [] => Some s
  | e :: es' =>
      match step chords_dict s e with
      | Some s' => run chords_dict s' es'
      | None => None
      end
  end.

(** The number of samples the driver requested in a trace. *)
Definition requested (es : list event) : Z :=
  foldr (fun e acc => match e with
                      | Request _ frames => (Z.of_nat frames + acc)%Z
                      | _ => acc
                      end) 0%Z es.

(** The sum the loop of the callback accumulates at time [ti]. *)
Definition sines_at (amplitude : R) (fs : list R) (ti : R) : R :=
  foldr Rplus 0 ((fun f => amplitude * sin (2 * PI * f * ti)) <$> fs).

(** The specification's formula for sample [i] of a buffer: the sum over
    the frequency set of [A * sin(2 * pi * f * (c + i) / R)]. *)
Definition spec_sample (amplitude : R) (fs : list R) (sampling_rate : R)
    (counter : Z) (i : nat) : R :=
  foldr Rplus 0
    ((fun f => amplitude * sin (2 * PI * f * IZR (counter + Z.of_nat i) / sampling_rate)) <$> fs).

(** The phase of a sine of frequency [f] after [k] sample periods, and
    its increment over one sample period. *)
Definition phase (f : R) (k : Z) (sampling_rate : R) : R :=
  2 * PI * f * IZR k / sampling_rate.

Definition phase_step (f : R) (sampling_rate : R) : R :=
  2 * PI * f / sampling_rate.



End Stream.

(** ** The notebook's session: the variable [callback] and the stream

    The counter is an attribute of the callback object, and
    [sd.OutputStream(callback=callback, ...)] takes the object the global
    [callback] names at that moment.  [Stream.step] runs a streaming cell
    as a whole; here the assignment [callback = generate_callback(...)]
    and the [with] statement are steps of their own, so that a stream can
    also be started on a callback that has already played.  The statements
    of a cell run one after the other: the variable is assigned only while
    no stream is open. *)

Module Session.
Import Py Np Stream.

(** The global [callback] ([None] before its first assignment) and
    whether a [with sd.OutputStream(...)] block is running. *)
Record notebook : Type := Notebook {
  callback_var : option closure;
  streaming : bool
}.


Inductive statement : Type :=
| Assign (amplitude : R) (freqs : list R) (sampling_rate : R)
         (queue : option (list string))
| Enter
| Buffer (outdata : list (list R)) (frames : nat)
| Put (code : string)
| Exit.

(** One step: [callback = generate_callback(...)]; entering
    [with sd.OutputStream(callback=callback, ...)]; the driver calling the
    callback of the open stream; [queue.put(ret)] in the block; leaving
    the block.  [None]: the step cannot happen in that state, or the
    callback did not return. *)
Definition exec (chords_dict : gmap string (list R)) (s : notebook)
    (e : statement) : option notebook :=
  match e, s with
  | Assign a fs r q, Notebook _ false =>
      Some (Notebook (Some (generate_callback a fs r q)) false)
  | Enter, Notebook (Some cb) false => Some (Notebook (Some cb) true)
  | Buffer outdata frames, Notebook (Some cb) true =>
      match callback chords_dict cb outdata frames with
      | (cb', _, Ok _) => Some (Notebook (Some cb') true)
      | _ => None
      end
  | Put code, Notebook (Some cb) true => Some (Notebook (Some (post code cb)) true)
  | Exit, Notebook cb true => Some (Notebook cb false)
  | _, _ => None
  end.

Fixpoint run (chords_dict : gmap string (list R)) (s : notebook)
    (es : list statement) : option notebook :=
  match es with
  | [] => Some s
  | e :: es' =>
      match exec chords_dict s e with
      | Some s' => run chords_dict s' es'
      | None => None
      end
  end.




End Session.

(** ** Fade envelopes *)

Module Fade.
Import Py Np.

(** *** Arrays in a store

    [fade_in] and [fade_out] copy their argument and update the copy in
    place, so arrays live in a store: a list of arrays, an array
    reference being its index.  A computation takes the store and yields
    the store afterwards together with its outcome.  Signals are
    one-dimensional float arrays, as all signals the notebook fades. *)
Definition M (A : Type) : Type := list (list R) -> list (list R) * outcome A.

Definition ret {A : Type} (a : A) : M A := fun h => (h, Ok a).

Definition bind {A B : Type} (m : M A) (k : A -> M B) : M B := fun h =>
  match m h with
  | (h', Ok a) => k a h'
  | (h', Raise e) => (h', Raise e)
  | (h', Blocks) => (h', Blocks)
  end.

Notation "'let*' x := m 'in' k" := (bind m (fun x => k))
  (at level 10, x name, m at level 100, k at level 200).

Definition raise {A : Type} (e : exn) : M A := fun h => (h, Raise e).

Definition lift {A : Type} (o : outcome A) : M A := fun h => (h, o).

(** Reading through a reference.  A Python program cannot hold a
    reference to nothing; the model answers with an exception. *)
Definition read (a : nat) : M (list R) := fun h =>
  match h !! a with
  | Some arr => (h, Ok arr)
  | None => (h, Raise (ValueError "no such array"))
  end.

(** [len(a)] *)
Definition len (a : nat) : M nat := let* arr := read a in ret (length arr).

(** [a.copy()]: a new array with the same contents. *)
Definition copy (a : nat) : M nat :=
  let* arr := read a in (fun h => (h ++ [arr], Ok (length h))).

(** [view *= b] on one-dimensional operands: element by element when
    the lengths agree, by the single element of [b] when it has one,
    and an exception otherwise. *)
Definition broadcast_mul (view b : list R) : outcome (list R) :=
  if decide (length b = length view)
  then Ok (zip_with Rmult view b)
  else match b with
       | [v] => Ok (map (fun x => x * v) view)
       | _ => Raise broadcast_error
       end.

(** [a[start:stop] *= b], for [start <= stop <= len(a)]. *)
Definition imul_slice (a : nat) (start stop : nat) (b : list R) : M unit :=
  let* arr := read a in
  let* res := lift (broadcast_mul (take (stop - start) (drop start arr)) b) in
  (fun h => (<[a := take start arr ++ res ++ drop stop arr]> h, Ok tt)).

(** Where the slice [a[-n:]] starts in an array of length [l]: Python
    reads [-0] as [0], the start of the array. *)
Definition tail_start (n l : nat) : nat :=
  if decide (n = 0)%nat then 0%nat else (l - n)%nat.

Definition invalid_mode : string :=
  "Invalid mode. Options: 'linear', 'sine', 'sine-squared'".

(** [fade_in(data, duration, sampling_rate, mode)] *)
Definition fade_in (data : nat) (duration sampling_rate : R) (mode : string)
  : M nat :=
  let* t := lift (linspace 0 duration (int (sampling_rate * duration))) in
  let* fade :=
    (if decide (mode = "linear") then
       ret ((fun x => x / duration) <$> t)
     else if decide (mode = "sine") then
       ret ((fun x => sin (2 * PI * x * 0.25 / duration)) <$> t)
     else if decide (mode = "sine-squared") then
       ret ((fun x => sin (2 * PI * x * 0.25 / duration) ^ 2) <$> t)
     else raise (ValueError invalid_mode)) in
  let* data := copy data in
  let* l := len data in
  let n := (length fade `min` l)%nat in
  let* _ := imul_slice data 0 n (take n fade) in
  ret data.

(** [fade_out(data, duration, sampling_rate, mode)].  There is no
    [else] branch: after an unknown mode the local [fade] is unbound,
    and reading it in [len(fade)] raises. *)
Definition fade_out (data : nat) (duration sampling_rate : R) (mode : string)
  : M nat :=
  let* t := lift (linspace 0 duration (int (sampling_rate * duration))) in
  let fade : option (list R) :=
    if decide (mode = "linear") then
      Some ((fun x => 1 - x / duration) <$> t)
    else if decide (mode = "sine") then
      Some ((fun x => cos (2 * PI * x * 0.25 / duration)) <$> t)
    else if decide (mode = "sine-squared") then
      Some ((fun x => cos (2 * PI * x * 0.25 / duration) ^ 2) <$> t)
    else None in
  let* data := copy data in
  let* fade :=
    (match fade with
     | Some fade => ret fade
     | None => raise (UnboundLocalError "fade")
     end) in
  let* l := len data in
  let n := (length fade `min` l)%nat in
  let* _ := imul_slice data (tail_start n l) l
                       (drop (tail_start n (length fade)) fade) in
  ret data.

(** The three modes of the docstrings. *)
Definition valid_mode (mode : string) : Prop :=
  mode = "linear" \/ mode = "sine" \/ mode = "sine-squared".

(** The number of points of the envelope, [int(sampling_rate * duration)],
    and the envelopes themselves: the local [fade] of [fade_in] and of
    [fade_out] for a valid mode. *)
Definition fade_length (duration sampling_rate : R) : nat :=
  Z.to_nat (int (sampling_rate * duration)).

Definition time_points (duration sampling_rate : R) : list R :=
  (fun k => IZR k * ((duration - 0) / IZR (int (sampling_rate * duration))) + 0)
    <$> arange (fade_length duration sampling_rate).

Definition gain_in (mode : string) (duration x : R) : R :=
  if decide (mode = "linear") then x / duration
  else if decide (mode = "sine") then sin (2 * PI * x * 0.25 / duration)
  else sin (2 * PI * x * 0.25 / duration) ^ 2.

Definition gain_out (mode : string) (duration x : R) : R :=
  if decide (mode = "linear") then 1 - x / duration
  else if decide (mode = "sine") then cos (2 * PI * x * 0.25 / duration)
  else cos (2 * PI * x * 0.25 / duration) ^ 2.

End Fade.

(** ** Offline synthesis: [sine_wave] and [chord] *)

Module Synth.
Import Py Np Fade.

#[global] Instance outcome_ret : MRet outcome := fun A a => Ok a.

(** [sine_wave(frequency, amplitude, duration, sampling_rate)]: a new
    array. *)
Definition sine_wave (frequency amplitude duration sampling_rate : R)
  : outcome (list R) :=
  match linspace 0 duration (int (sampling_rate * duration)) with
  | Ok t => Ok ((fun ti => amplitude * sin (2 * PI * frequency * ti)) <$> t)
  | Raise e => Raise e
  | Blocks => Blocks
  end.

(** What [chord] returns: [np.sum(sines, axis=0)] is an array when there
    is a sine to sum, and the float 0.0 when there is none. *)
Inductive value : Type :=
| Float (x : R)
| Array (a : nat).

(** A new array in the store. *)
Definition alloc (arr : list R) : M nat := fun h => (h ++ [arr], Ok (length h)).

(** [np.sum(a)] of a one-dimensional array. *)
Definition sum (arr : list R) : R := foldr Rplus 0 arr.

(** [a /= x], in place. *)
Definition idiv (a : nat) (x : R) : M unit :=
  let* arr := read a in
  (fun h => (<[a := (fun w => w / x) <$> arr]> h, Ok tt)).

(** [np.sum(rows, axis=0)] of a list of arrays of one length. *)
Definition sum_axis0 (rows : list (list R)) : M value :=
  match rows with
  | [] => ret (Float 0)
  | row :: rows' =>
      let* a := alloc (foldl (zip_with Rplus) row rows') in ret (Array a)
  end.

(** [chord(freqs, amplitude, duration, sampling_rate, weights)], with
    [weights] absent or a float array (a Python list or an integer array
    takes other paths through NumPy, which are not modelled).  The weights
    are normalised in the array that was passed; the array of ones made
    for absent weights is a new array like any other. *)
Definition chord (freqs : list R) (amplitude duration sampling_rate : R)
    (weights : option nat) : M value :=
  let* weights :=
    (match weights with
     | None => alloc (replicate (length freqs) 1)
     | Some a => ret a
     end) in
  let* ws := read weights in
  let* _ := idiv weights (sum ws / INR (length ws)) in
  let* ws := read weights in
  let* sines :=
    lift (mapM (fun fw : R * R =>
                  sine_wave fw.1 (amplitude * fw.2) duration sampling_rate)
               (zip freqs ws)) in
  sum_axis0 sines.

(** What [weights /= np.sum(weights) / len(weights)] leaves in the array:
    the weights divided by their mean. *)
Definition normalised (ws : list R) : list R :=
  (fun w => w / (sum ws / INR (length ws))) <$> ws.

(** The weighted sum of sines at time [t], for pairs of a frequency and a
    weight. *)
Definition mix_at (amplitude : R) (fws : list (R * R)) (t : R) : R :=
  foldr Rplus 0 ((fun fw : R * R => amplitude * fw.2 * sin (2 * PI * fw.1 * t)) <$> fws).

End Synth.

(** ** The number of points, as the machine computes it

    [int(sampling_rate * duration)] truncates a binary64 product.  When
    the exact product is a whole number the rounded one can lie just
    below it, and the arrays are then one sample shorter than the exact
    product says: [len(sine_wave(440, 0.2, 0.7, 44100))] is 30869, not
    30870.  The definitions of [Fade] and [Synth] above take the product
    exactly.  The ones below are the same functions with the product as
    the multiplication of two floats returns it: [fl_mul x y] stands for
    that number.  Nothing is assumed of [fl_mul], so what is proved of
    these definitions holds whatever the rounding does; where the exact
    product is itself a binary64 number, as for [44100 * 0.5], it is
    that product. *)

Module Rounded.
Import Py Np Fade Synth.

Section Binary64.

Variable fl_mul : R -> R -> R.

(** [fade_in(data, duration, sampling_rate, mode)] *)
Definition fade_in (data : nat) (duration sampling_rate : R) (mode : string)
  : M nat :=
  let* t := lift (linspace 0 duration (int (fl_mul sampling_rate duration))) in
  let* fade :=
    (if decide (mode = "linear") then
       ret ((fun x => x / duration) <$> t)
     else if decide (mode = "sine") then
       ret ((fun x => sin (2 * PI * x * 0.25 / duration)) <$> t)
     else if decide (mode = "sine-squared") then
       ret ((fun x => sin (2 * PI * x * 0.25 / duration) ^ 2) <$> t)
     else raise (ValueError invalid_mode)) in
  let* data := copy data in
  let* l := len data in
  let n := (length fade `min` l)%nat in
  let* _ := imul_slice data 0 n (take n fade) in
  ret data.

(** [fade_out(data, duration, sampling_rate, mode)] *)
Definition fade_out (data : nat) (duration sampling_rate : R) (mode : string)
  : M nat :=
  let* t := lift (linspace 0 duration (int (fl_mul sampling_rate duration))) in
  let fade : option (list R) :=
    if decide (mode = "linear") then
      Some ((fun x => 1 - x / duration) <$> t)
    else if decide (mode = "sine") then
      Some ((fun x => cos (2 * PI * x * 0.25 / duration)) <$> t)
    else if decide (mode = "sine-squared") then
      Some ((fun x => cos (2 * PI * x * 0.25 / duration) ^ 2) <$> t)
    else None in
  let* data := copy data in
  let* fade :=
    (match fade with
     | Some fade => ret fade
     | None => raise (UnboundLocalError "fade")
     end) in
  let* l := len data in
  let n := (length fade `min` l)%nat in
  let* _ := imul_slice data (tail_start n l) l
                       (drop (tail_start n (length fade)) fade) in
  ret data.

(** [sine_wave(frequency, amplitude, duration, sampling_rate)] *)
Definition sine_wave (frequency amplitude duration sampling_rate : R)
  : outcome (list R) :=
  match linspace 0 duration (int (fl_mul sampling_rate duration)) with
  | Ok t => Ok ((fun ti => amplitude * sin (2 * PI * frequency * ti)) <$> t)
  | Raise e => Raise e
  | Blocks => Blocks
  end.

(** [chord(freqs, amplitude, duration, sampling_rate, weights)] *)
Definition chord (freqs : list R) (amplitude duration sampling_rate : R)
    (weights : option nat) : M value :=
  let* weights :=
    (match weights with
     | None => alloc (replicate (length freqs) 1)
     | Some a => ret a
     end) in
  let* ws := read weights in
  let* _ := idiv weights (sum ws / INR (length ws)) in
  let* ws := read weights in
  let* sines :=
    lift (mapM (fun fw : R * R =>
                  sine_wave fw.1 (amplitude * fw.2) duration sampling_rate)
               (zip freqs ws)) in
  sum_axis0 sines.

(** The number of points [int(sampling_rate * duration)] as a length,
    and the time vector [np.linspace(0, duration, num, endpoint=False)]
    of that many points. *)
Definition num_points (duration sampling_rate : R) : nat :=
  Z.to_nat (int (fl_mul sampling_rate duration)).

Definition time_points (duration sampling_rate : R) : list R :=
  (fun k => IZR k * ((duration - 0) / IZR (int (fl_mul sampling_rate duration))) + 0)
    <$> arange (num_points duration sampling_rate).

End Binary64.

End Rounded.

(** ** The checkerboard test image of the interpolation notebook *)

Module Checkerboard.

(** Images are two-dimensional [uint8] arrays: lists of rows of numbers
    below 256.  Sizes in pixels are natural numbers. *)
Inductive error : Type :=
| ZeroDivisionError.

(** [np.ones((n, n))] and [np.zeros((n, n))]: a square of one value. *)
Definition square (n v : nat) : list (list nat) := replicate n (replicate n v).

(** [np.hstack([a, b])] and [np.vstack([a, b])]. *)
Definition hstack (a b : list (list nat)) : list (list nat) := zip_with app a b.

Definition vstack (a b : list (list nat)) : list (list nat) := a ++ b.

(** [a *= k] on [uint8]: the products wrap at 256. *)
Definition imul_uint8 (a : list (list nat)) (k : nat) : list (list nat) :=
  map (map (fun v => (v * k) mod 256)) a.

(** [np.tile(a, (reps_y, reps_x))] of a two-dimensional array. *)
Definition tile (a : list (list nat)) (reps_y reps_x : nat) : list (list nat) :=
  mjoin (replicate reps_y (map (fun row => mjoin (replicate reps_x row)) a)).

(** [a[:height, :width]] *)
Definition crop (a : list (list nat)) (height width : nat) : list (list nat) :=
  take height (map (take width) a).

Section Rotation.
(** [cv.warpAffine(image, cv.getRotationMatrix2D(center, rotation, 1.0),
    dsize, flags=cv.INTER_LINEAR, borderMode=cv.BORDER_WRAP)]: OpenCV's
    rotation, which is not part of the sources, as a parameter. *)
Variable rotate : list (list nat) -> nat * nat -> R -> nat * nat -> list (list nat).

(** [create_checkerboard_image(width, height, tile_size, rotation)] *)
Definition create_checkerboard_image (width height tile_size : nat) (rotation : R)
  : error + list (list nat) :=
  if decide (tile_size = 0)%nat then inl ZeroDivisionError
  else
    let tiles_x := (width / tile_size + 1)%nat in
    let tiles_y := (height / tile_size + 1)%nat in
    let tile_white := square tile_size 1 in
    let tile_black := square tile_size 0 in
    let checker_tile :=
      imul_uint8 (vstack (hstack tile_white tile_black)
                         (hstack tile_black tile_white)) 255 in
    let checkerboard := tile checker_tile (tiles_y / 2) (tiles_x / 2) in
    let checkerboard := crop checkerboard height width in
    inr (if Req_dec_T rotation 0 then checkerboard
         else rotate checkerboard ((width / 2)%nat, (height / 2)%nat) rotation
                     (width, height)).
End Rotation.

(** The number of rows (or columns) the tiling provides for a requested
    size before cropping. *)
Definition tiled_size (size tile_size : nat) : nat :=
  (2 * tile_size * ((size / tile_size + 1) / 2))%nat.

End Checkerboard.

(** * Properties *)

(** ** The chord table *)

Module ChordsFacts.
Import Chords.

(** The cell that builds the dictionary runs through: every label
    parses, and the dictionary has an entry for each of the 14 codes and
    for nothing else. *)
Lemma chords_dict_cell_runs df_notes :
  chords_dict_cell df_notes = Some (chords_dict df_notes).
Proof. reflexivity. Qed.

Lemma chords_dict_known df_notes code :
  is_Some (chords_dict df_notes !! code) <-> code ∈ chord_labels.*1.
Proof.
  split.
  - intros [fs Hfs]. unfold chords_dict in Hfs. cbn in Hfs.
    apply elem_of_list_to_map_2 in Hfs.
    apply (list_elem_of_fmap_2 fst) in Hfs. exact Hfs.
  - intros H.
    repeat (apply elem_of_cons in H as [-> | H]; [by eexists|]).
    by apply elem_of_nil in H.
Qed.

End ChordsFacts.

(** ** Streaming *)

Module StreamFacts.
Import Py Np Stream.

Lemma sines_at_cons a f fs ti :
  sines_at a (f :: fs) ti = a * sin (2 * PI * f * ti) + sines_at a fs ti.
Proof. reflexivity. Qed.

Lemma length_time_vector c n r : length (time_vector c n r) = n.
Proof. unfold time_vector, arange. by rewrite !length_fmap, length_seq. Qed.

Lemma lookup_time_vector c n r i :
  (i < n)%nat -> time_vector c n r !! i = Some (IZR (c + Z.of_nat i) / r).
Proof.
  intros Hi. unfold time_vector, arange.
  by rewrite !list_lookup_fmap, lookup_seq_lt.
Qed.

Lemma length_fill_zero out : length (fill_zero out) = length out.
Proof. unfold fill_zero. by rewrite length_map. Qed.

Lemma lookup_fill_zero out i :
  fill_zero out !! i = map (fun _ => 0) <$> out !! i.
Proof. unfold fill_zero. apply list_lookup_fmap. Qed.

(** The consume step never waits: [get] is only reached on a queue that
    [empty] has just found non-empty. *)
Lemma try_consume_returns q :
  try_consume q =
    match q with
    | Some (code :: rest) => Ok (Some code, Some rest)
    | Some [] => Ok (None, Some [])
    | None => Ok (None, None)
    end.
Proof. by destruct q as [[|code rest]|]. Qed.

(** Codes the controller puts between the test [queue.empty()] and the
    call [queue.get()] leave a non-empty queue non-empty, with the same
    oldest code: the [get] still returns it. *)
Lemma get_after_puts q codes :
  empty q = false ->
  exists code rest,
    get q = Ok (code, rest) /\
    get (foldl (fun q c => put c q) q codes) = Ok (code, rest ++ codes).
Proof.
  destruct q as [|code rest]; [done|]. intros _. exists code, rest.
  split; [done|]. revert rest.
  induction codes as [|c codes IH]; intros rest; simpl.
  - by rewrite app_nil_r.
  - unfold put at 2. simpl. rewrite IH. by rewrite <- app_assoc.
Qed.

Lemma iadd_column_same_length out col :
  length col = length out ->
  iadd_column out col = Ok (zip_with (fun row v => map (fun x => x + v) row) out col).
Proof. intros H. unfold iadd_column. by rewrite decide_True. Qed.

(** With a time vector as long as the buffer, the loop runs to its end
    and has added to every channel of row [i] the sum of all sines at
    [t[i]]. *)
Lemma add_sines_same_length a t fs out :
  length t = length out ->
  add_sines a t fs out =
    (zip_with (fun row ti => map (fun x => x + sines_at a fs ti) row) out t, Ok tt).
Proof.
  revert out. induction fs as [|f fs IH]; intros out Hlen; simpl.
  - f_equal. apply list_eq. intros i. rewrite lookup_zip_with.
    destruct (out !! i) as [row|] eqn:Hrow; simpl; [|done].
    destruct (t !! i) as [ti|] eqn:Hti; simpl.
    + f_equal. rewrite <- (map_id row) at 1. apply map_ext.
      intros x. unfold sines_at, id. simpl. lra.
    + apply lookup_lt_Some in Hrow. apply lookup_ge_None in Hti. lia.
  - rewrite iadd_column_same_length
      by (unfold sine_column; rewrite length_fmap; done).
    rewrite IH by (rewrite length_zip_with_l_eq;
                   unfold sine_column; rewrite ?length_fmap; done).
    f_equal. apply list_eq. intros i.
    rewrite !lookup_zip_with. unfold sine_column.
    rewrite list_lookup_fmap.
    destruct (out !! i) as [row|]; simpl; [|done].
    destruct (t !! i) as [ti|]; simpl; [|done].
    f_equal. rewrite map_map. apply map_ext.
    intros x. rewrite sines_at_cons. lra.
Qed.

(** The accumulated sum is the formula of the specification. *)
Lemma sines_at_spec_sample a fs r c i :
  sines_at a fs (IZR (c + Z.of_nat i) / r) = spec_sample a fs r c i.
Proof.
  unfold sines_at, spec_sample. f_equal. apply list_fmap_ext.
  intros _ f _. do 2 f_equal. unfold Rdiv. ring.
Qed.

(** What a call does when the driver hands over a buffer of [frames]
    rows: it returns, the closure holds the selected frequencies, the
    rest of the queue and the advanced counter, and every channel of row
    [i] holds the sum of the sines of the selected frequencies. *)
Lemma callback_same_length chords_dict cb outdata frames :
  length outdata = frames ->
  exists code queue',
    try_consume (queue cb) = Ok (code, queue') /\
    let fs := select_freqs chords_dict code (freqs cb) in
    callback chords_dict cb outdata frames =
      (Closure (amplitude cb) fs (sampling_rate cb) queue'
               (counter cb + Z.of_nat frames),
       zip_with (fun row ti => map (fun _ => sines_at (amplitude cb) fs ti) row)
                outdata (time_vector (counter cb) frames (sampling_rate cb)),
       Ok tt).
Proof.
  intros Hlen. unfold callback. rewrite try_consume_returns.
  destruct (queue cb) as [[|code rest]|]; eexists _, _; (split; [done|]);
    simpl; rewrite add_sines_same_length
      by (rewrite length_time_vector, length_fill_zero; done);
    do 2 f_equal; apply list_eq; intros i;
    rewrite !lookup_zip_with, lookup_fill_zero;
    destruct (outdata !! i) as [row|]; simpl; try done;
    destruct (time_vector _ _ _ !! i) as [ti|]; simpl; try done;
    f_equal; rewrite map_map; apply map_ext; intros x; lra.
Qed.

Lemma callback_row chords_dict cb outdata frames cb' out' i row :
  length outdata = frames ->
  callback chords_dict cb outdata frames = (cb', out', Ok tt) ->
  outdata !! i = Some row ->
  out' !! i =
    Some (map (fun _ => spec_sample (amplitude cb) (freqs cb')
                          (sampling_rate cb) (counter cb) i) row).
Proof.
  intros Hlen Hcall Hrow.
  destruct (callback_same_length chords_dict cb outdata frames Hlen)
    as (code & queue' & _ & Heq).
  simpl in Heq. rewrite Heq in Hcall. injection Hcall as <- <-. simpl.
  rewrite lookup_zip_with, Hrow. simpl.
  rewrite lookup_time_vector
    by (apply lookup_lt_Some in Hrow; lia).
  simpl. by rewrite sines_at_spec_sample.
Qed.






(** A call that returns has advanced the counter by [frames] and kept
    amplitude and sample rate. *)
Lemma callback_counter chords_dict cb outdata frames cb' out' :
  callback chords_dict cb outdata frames = (cb', out', Ok tt) ->
  counter cb' = (counter cb + Z.of_nat frames)%Z /\
  amplitude cb' = amplitude cb /\ sampling_rate cb' = sampling_rate cb.
Proof.
  unfold callback. rewrite try_consume_returns.
  destruct (queue cb) as [[|code rest]|];
    destruct (add_sines _ _ _ _) as [o [[]|e|]]; intros [= <- _]; done.
Qed.

Lemma spec_sample_phase a fs r c i :
  spec_sample a fs r c i =
  foldr Rplus 0 ((fun f => a * sin (phase f (c + Z.of_nat i) r)) <$> fs).
Proof. reflexivity. Qed.

(** One sample period later the phase of every frequency has grown by
    [phase_step]. *)
Lemma phase_succ f k r : phase f (k + 1) r = phase f k r + phase_step f r.
Proof. unfold phase, phase_step. rewrite plus_IZR. unfold Rdiv. ring. Qed.

(** C2.  A call on a buffer of [n] rows leaves the counter at its
    previous value plus [n], and a second call on a buffer of [m] rows at
    that value plus [m].  Each call plays the frequencies the closure
    holds, changed by the one code the call takes from the queue if there
    is one: [fs1] in the first buffer and [fs2] in the second.  The last
    row of the first buffer is evaluated at phase [phase f last] for each
    [f] of [fs1], and the first row of the second buffer at
    [phase f last + phase_step f] for each [f] of [fs2]: one sample period
    further, whatever time passed between the calls.  With no code
    waiting, both are the frequencies the closure had. *)
Theorem callback_phase_continuity chords_dict cb out1 n out2 m :
  0 < sampling_rate cb ->
  length out1 = n ->
  length out2 = m ->
  let a := amplitude cb in
  let r := sampling_rate cb in
  let c := counter cb in
  exists code1 q1 code2 q2 o1 o2,
    try_consume (queue cb) = Ok (code1, q1) /\
    try_consume q1 = Ok (code2, q2) /\
    let fs1 := select_freqs chords_dict code1 (freqs cb) in
    let fs2 := select_freqs chords_dict code2 fs1 in
    let cb1 := Closure a fs1 r q1 (c + Z.of_nat n) in
    let cb2 := Closure a fs2 r q2 (c + Z.of_nat n + Z.of_nat m) in
    callback chords_dict cb out1 n = (cb1, o1, Ok tt) /\
    callback chords_dict cb1 out2 m = (cb2, o2, Ok tt) /\
    length o1 = n /\
    length o2 = m /\
    let last := (c + Z.of_nat n - 1)%Z in
    (forall row, out1 !! (n - 1)%nat = Some row ->
       o1 !! (n - 1)%nat =
         Some (map (fun _ => foldr Rplus 0
                 ((fun f => a * sin (phase f last r)) <$> fs1)) row)) /\
    (forall row, out2 !! 0%nat = Some row ->
       o2 !! 0%nat =
         Some (map (fun _ => foldr Rplus 0
                 ((fun f => a * sin (phase f last r + phase_step f r))
                    <$> fs2)) row)) /\
    (queue cb = None \/ queue cb = Some [] ->
       fs1 = freqs cb /\ fs2 = freqs cb).
Proof.
  intros _ Hn Hm a r c.
  destruct (callback_same_length chords_dict cb out1 n Hn)
    as (code1 & q1 & Hq1 & H1). simpl in H1. fold a r c in H1.
  set (fs1 := select_freqs chords_dict code1 (freqs cb)) in *.
  set (cb1 := Closure a fs1 r q1 (c + Z.of_nat n)) in *.
  destruct (callback_same_length chords_dict cb1 out2 m Hm)
    as (code2 & q2 & Hq2 & H2). simpl in Hq2, H2.
  set (fs2 := select_freqs chords_dict code2 fs1) in *.
  eexists code1, q1, code2, q2, _, _.
  split; [exact Hq1|]. split; [exact Hq2|]. cbv zeta. fold fs1 fs2 cb1.
  split; [exact H1|]. split; [exact H2|].
  split.
  { rewrite length_zip_with, length_time_vector. lia. }
  split.
  { rewrite length_zip_with, length_time_vector. lia. }
  split; [|split].
  - intros row Hrow.
    rewrite (callback_row _ _ _ _ _ _ _ _ Hn H1 Hrow), spec_sample_phase.
    apply lookup_lt_Some in Hrow. simpl. fold a r c.
    replace (c + Z.of_nat (n - 1))%Z with (c + Z.of_nat n - 1)%Z by lia.
    done.
  - intros row Hrow.
    rewrite (callback_row _ _ _ _ _ _ _ _ Hm H2 Hrow), spec_sample_phase.
    f_equal. apply map_ext. intros _. simpl. f_equal.
    apply list_fmap_ext. intros _ f _.
    rewrite <- phase_succ.
    replace (c + Z.of_nat n + Z.of_nat 0)%Z
      with (c + Z.of_nat n - 1 + 1)%Z by lia.
    done.
  - intros Hq. rewrite try_consume_returns in Hq1.
    assert (code1 = None /\ (q1 = None \/ q1 = Some [])) as [-> Hq1'].
    { destruct Hq as [Hq|Hq]; rewrite Hq in Hq1; injection Hq1 as <- <-; auto. }
    rewrite try_consume_returns in Hq2.
    assert (code2 = None) as ->.
    { destruct Hq1' as [-> | ->]; by injection Hq2 as <- <-. }
    done.
Qed.

Lemma callback_phase_continuity_witness :
  exists o1 o2,
    callback ∅ (Closure 0.2 [440] 44100 None 0) [[0]; [0]] 2 =
      (Closure 0.2 [440] 44100 None 2, o1, Ok tt) /\
    callback ∅ (Closure 0.2 [440] 44100 None 2) [[0]; [0]; [0]] 3 =
      (Closure 0.2 [440] 44100 None 5, o2, Ok tt) /\
    o1 !! 1%nat = Some [0.2 * sin (phase 440 1 44100) + 0] /\
    o2 !! 0%nat = Some [0.2 * sin (phase 440 1 44100 + phase_step 440 44100) + 0].
Proof.
  destruct (callback_phase_continuity ∅ (Closure 0.2 [440] 44100 None 0)
              [[0]; [0]] 2 [[0]; [0]; [0]] 3)
    as (code1 & q1 & code2 & q2 & o1 & o2 & Hq1 & Hq2 & H1 & H2 & _ & _
        & Hlast & Hfirst & _).
  - simpl. lra.
  - reflexivity.
  - reflexivity.
  - simpl in Hq1. injection Hq1 as <- <-.
    simpl in Hq2. injection Hq2 as <- <-.
    exists o1, o2. split; [exact H1|]. split; [exact H2|]. split.
    + exact (Hlast [0] eq_refl).
    + exact (Hfirst [0] eq_refl).
Defined.

(** What a call leaves in the closure's [freqs] and [queue], whether or
    not the synthesis that follows returns. *)
Lemma callback_consumes chords_dict cb outdata frames :
  exists code queue',
    try_consume (queue cb) = Ok (code, queue') /\
    freqs (callback chords_dict cb outdata frames).1.1 =
      select_freqs chords_dict code (freqs cb) /\
    queue (callback chords_dict cb outdata frames).1.1 = queue'.
Proof.
  unfold callback. rewrite try_consume_returns.
  destruct (queue cb) as [[|code rest]|]; eexists _, _; (split; [done|]);
    destruct (add_sines _ _ _ _) as [o [[]|e|]]; done.
Qed.

(** C3.  When the code taken from the queue is not a key of the chord
    dictionary, the call returns, the buffer is computed with the
    frequency set the closure had, and the closure keeps that set. *)
Theorem unknown_code_keeps_freqs chords_dict cb code rest outdata frames :
  queue cb = Some (code :: rest) ->
  chords_dict !! code = None ->
  length outdata = frames ->
  exists cb' out',
    callback chords_dict cb outdata frames = (cb', out', Ok tt) /\
    freqs cb' = freqs cb /\
    queue cb' = Some rest /\
    forall i row, outdata !! i = Some row ->
      out' !! i =
        Some (map (fun _ => spec_sample (amplitude cb) (freqs cb)
                              (sampling_rate cb) (counter cb) i) row).
Proof.
  intros Hq Hcode Hlen.
  destruct (callback_same_length chords_dict cb outdata frames Hlen)
    as (code' & queue' & Hc & Heq).
  rewrite Hq in Hc. simpl in Hc. injection Hc as <- <-.
  simpl in Heq. rewrite Hcode in Heq. simpl in Heq.
  eexists _, _. split; [exact Heq|]. split; [done|]. split; [done|].
  intros i row Hrow.
  by rewrite (callback_row _ _ _ _ _ _ _ _ Hlen Heq Hrow).
Qed.

Lemma unknown_code_keeps_freqs_witness :
  exists cb' out',
    callback (Chords.chords_dict Chords.example_notes)
             (Closure 0.2 [440] 44100 (Some ["H7"; "Am"]) 0) [[0]; [0]] 2
      = (cb', out', Ok tt) /\
    freqs cb' = [440] /\ queue cb' = Some ["Am"].
Proof.
  destruct (unknown_code_keeps_freqs (Chords.chords_dict Chords.example_notes)
              (Closure 0.2 [440] 44100 (Some ["H7"; "Am"]) 0) "H7" ["Am"]
              [[0]; [0]] 2)
    as (cb' & out' & H1 & H2 & H3 & _).
  - reflexivity.
  - reflexivity.
  - reflexivity.
  - exists cb', out'. auto.
Defined.

(** C4, as stated, fails: after "Am" and then "Em" were posted to an
    empty queue, the next consume step takes "Am", not "Em", and so the
    next buffer is not played with the frequencies of "Em". *)
Lemma latest_code_not_consumed_first :
  try_consume (Some (put "Em" (put "Am" []))) = Ok (Some "Am", Some ["Em"]) /\
  ~ (forall chords_dict cb outdata frames,
       queue cb = Some (put "Em" (put "Am" [])) ->
       freqs (callback chords_dict cb outdata frames).1.1 =
         default (freqs cb) (chords_dict !! "Em")).
Proof.
  split; [reflexivity|]. intros H.
  specialize (H (<["Am" := [220]]> (<["Em" := [165]]> ∅))
                (Closure 0.2 [440] 44100 (Some ["Am"; "Em"]) 0) [] 0%nat eq_refl).
  vm_compute in H. injection H as H. lra.
Qed.

(** C4, amended.  A call takes at most one code, the oldest, and leaves
    the others queued in their order; it takes none from an empty or
    absent queue.  After "Am" and then "Em" were posted to an empty
    queue, the next call takes "Am" and leaves "Em", which the call
    after that takes. *)
Theorem consume_oldest_one_per_buffer chords_dict a fs r c outdata frames :
  (forall code rest,
     let cb' := (callback chords_dict (Closure a fs r (Some (code :: rest)) c)
                          outdata frames).1.1 in
     queue cb' = Some rest /\ freqs cb' = default fs (chords_dict !! code)) /\
  (forall q, q = None \/ q = Some [] ->
     let cb' := (callback chords_dict (Closure a fs r q c) outdata frames).1.1 in
     queue cb' = q /\ freqs cb' = fs) /\
  (forall out2 frames2,
     let cb0 := post "Em" (post "Am" (Closure a fs r (Some []) c)) in
     let cb1 := (callback chords_dict cb0 outdata frames).1.1 in
     let cb2 := (callback chords_dict cb1 out2 frames2).1.1 in
     queue cb0 = Some ["Am"; "Em"] /\
     freqs cb1 = default fs (chords_dict !! "Am") /\
     queue cb1 = Some ["Em"] /\
     freqs cb2 = default (freqs cb1) (chords_dict !! "Em") /\
     queue cb2 = Some []).
Proof.
  split; [|split].
  - intros code rest cb'. subst cb'.
    destruct (callback_consumes chords_dict
                (Closure a fs r (Some (code :: rest)) c) outdata frames)
      as (code' & q' & Hq & Hf & Hqueue).
    simpl in Hq. injection Hq as <- <-. by rewrite Hf, Hqueue.
  - intros q Hq cb'. subst cb'.
    destruct (callback_consumes chords_dict (Closure a fs r q c) outdata frames)
      as (code' & q' & Hc & Hf & Hqueue).
    rewrite Hf, Hqueue.
    destruct Hq as [-> | ->]; simpl in Hc; by injection Hc as <- <-.
  - intros out2 frames2 cb0 cb1 cb2.
    destruct (callback_consumes chords_dict cb0 outdata frames)
      as (code1 & q1 & Hc1 & Hf1 & Hq1).
    simpl in Hc1. injection Hc1 as <- <-. fold cb1 in Hf1, Hq1.
    destruct (callback_consumes chords_dict cb1 out2 frames2)
      as (code2 & q2 & Hc2 & Hf2 & Hq2).
    rewrite Hq1 in Hc2. simpl in Hc2. injection Hc2 as <- <-.
    fold cb2 in Hf2, Hq2. simpl in Hf1, Hf2. auto.
Qed.

(** C6.  A call on a buffer of [frames] rows computes every row with one
    frequency set [F], the one selected by the consume step before the
    first row is written: the closure's previous set, or the dictionary
    entry of the code just taken; and [F] is the set the closure holds
    afterwards. *)
Theorem one_frequency_set_per_buffer chords_dict cb outdata frames :
  length outdata = frames ->
  exists code queue' cb' out',
    try_consume (queue cb) = Ok (code, queue') /\
    callback chords_dict cb outdata frames = (cb', out', Ok tt) /\
    let F := select_freqs chords_dict code (freqs cb) in
    freqs cb' = F /\
    (F = freqs cb \/ exists c, code = Some c /\ chords_dict !! c = Some F) /\
    forall i row, outdata !! i = Some row ->
      out' !! i =
        Some (map (fun _ => spec_sample (amplitude cb) F
                              (sampling_rate cb) (counter cb) i) row).
Proof.
  intros Hlen.
  destruct (callback_same_length chords_dict cb outdata frames Hlen)
    as (code & queue' & Hc & Heq).
  simpl in Heq. eexists code, queue', _, _.
  split; [exact Hc|]. split; [exact Heq|]. simpl.
  split; [done|]. split.
  - destruct code as [c|]; simpl; [|by left].
    destruct (chords_dict !! c) as [F|] eqn:HF; simpl; [|by left].
    right. by exists c.
  - intros i row Hrow.
    by rewrite (callback_row _ _ _ _ _ _ _ _ Hlen Heq Hrow).
Qed.

Lemma one_frequency_set_per_buffer_witness :
  exists cb' out',
    callback (Chords.chords_dict Chords.example_notes)
             (Closure 0.2 [440] 44100 (Some ["Am"]) 0) [[0]; [0]] 2
      = (cb', out', Ok tt) /\
    Some (freqs cb') = Chords.chords_dict Chords.example_notes !! "Am".
Proof.
  destruct (one_frequency_set_per_buffer
              (Chords.chords_dict Chords.example_notes)
              (Closure 0.2 [440] 44100 (Some ["Am"]) 0) [[0]; [0]] 2)
    as (code & queue' & cb' & out' & Hc & H1 & H2 & _).
  - reflexivity.
  - exists cb', out'. split; [exact H1|].
    injection Hc as <- <-. rewrite H2. reflexivity.
Defined.

(** While a stream stays active its counter is never reset: it has
    grown by the number of samples requested. *)
Lemma counter_counts_frames chords_dict es cb cb' :
  Stop ∉ es ->
  run chords_dict (Active cb) es = Some (Active cb') ->
  counter cb' = (counter cb + requested es)%Z.
Proof.
  revert cb. induction es as [|e es IH]; intros cb Hstop Hrun; simpl in *.
  - injection Hrun as <-. lia.
  - apply not_elem_of_cons in Hstop as [Hne Hstop].
    destruct e as [a fs r q|outdata frames|code|]; simpl in Hrun; try done.
    + destruct (callback chords_dict cb outdata frames) as [[cb1 out1] [[]|e|]] eqn:Hcall;
        try done.
      apply callback_counter in Hcall as (Hc & _).
      rewrite (IH _ Hstop Hrun), Hc. lia.
    + rewrite (IH _ Hstop Hrun). simpl. lia.
Qed.

End StreamFacts.

Module SessionFacts.
Import Py Np Stream StreamFacts Session.






End SessionFacts.

(** ** Fades *)

Module FadeFacts.
Import Py Np Fade.

Lemma int_IZR z : int (IZR z) = z.
Proof.
  unfold int. destruct (Rle_dec 0 (IZR z)) as [H|H].
  - symmetry. apply Int_part_spec. lra.
  - rewrite <- opp_IZR. rewrite <- (Int_part_spec (IZR (- z)) (- z)%Z); [lia|lra].
Qed.

Lemma int_small x : 0 <= x < 1 -> int x = 0%Z.
Proof.
  intros Hx. unfold int.
  destruct (Rle_dec 0 x) as [H|H]; [|lra].
  symmetry. apply Int_part_spec. simpl. lra.
Qed.

Lemma bind_ok {A B : Type} (m : M A) (k : A -> M B) h h' a :
  m h = (h', Ok a) -> bind m k h = k a h'.
Proof. unfold bind. by intros ->. Qed.

Lemma bind_raise {A B : Type} (m : M A) (k : A -> M B) h h' e :
  m h = (h', Raise e) -> bind m k h = (h', Raise e).
Proof. unfold bind. by intros ->. Qed.

Lemma linspace_ok duration sampling_rate :
  (0 <= int (sampling_rate * duration))%Z ->
  linspace 0 duration (int (sampling_rate * duration)) =
    Ok (time_points duration sampling_rate).
Proof.
  intros H. unfold linspace.
  destruct (Z.ltb_spec (int (sampling_rate * duration)) 0); [lia|done].
Qed.

Lemma length_time_points duration sampling_rate :
  length (time_points duration sampling_rate) = fade_length duration sampling_rate.
Proof. unfold time_points, arange. by rewrite !length_fmap, length_seq. Qed.

Lemma copy_ok h a arr :
  h !! a = Some arr -> copy a h = (h ++ [arr], Ok (length h)).
Proof. intros H. unfold copy, bind, read. by rewrite H. Qed.

Lemma lookup_new (h : list (list R)) arr : (h ++ [arr]) !! length h = Some arr.
Proof. by rewrite lookup_app_r, Nat.sub_diag. Qed.

Lemma len_new h arr : len (length h) (h ++ [arr]) = (h ++ [arr], Ok (length arr)).
Proof. unfold len, bind, read. by rewrite lookup_new. Qed.

Lemma insert_new (h : list (list R)) arr arr' :
  <[length h := arr']> (h ++ [arr]) = h ++ [arr'].
Proof. by rewrite insert_app_r_alt, Nat.sub_diag. Qed.

Lemma imul_slice_new h arr start stop b :
  imul_slice (length h) start stop b (h ++ [arr]) =
    match broadcast_mul (take (stop - start) (drop start arr)) b with
    | Ok res => (h ++ [take start arr ++ res ++ drop stop arr], Ok tt)
    | Raise e => (h ++ [arr], Raise e)
    | Blocks => (h ++ [arr], Blocks)
    end.
Proof.
  unfold imul_slice, bind, read, lift. rewrite lookup_new.
  destruct (broadcast_mul _ _); [|done..]. by rewrite insert_new.
Qed.

Lemma broadcast_mul_same_length view b :
  length b = length view -> broadcast_mul view b = Ok (zip_with Rmult view b).
Proof. intros H. unfold broadcast_mul. by rewrite decide_True. Qed.

(** [fade_in] returns a copy whose first [n] samples are scaled; the
    local [fade] is [gain_in] over the time points. *)
Lemma fade_in_returns data duration sampling_rate mode h arr :
  h !! data = Some arr ->
  valid_mode mode ->
  (0 <= int (sampling_rate * duration))%Z ->
  let fade := gain_in mode duration <$> time_points duration sampling_rate in
  let n := (length fade `min` length arr)%nat in
  fade_in data duration sampling_rate mode h =
    (h ++ [zip_with Rmult (take n arr) (take n fade) ++ drop n arr], Ok (length h)).
Proof.
  intros Hdata Hmode Hnum fade n. unfold fade_in.
  erewrite bind_ok by (unfold lift; rewrite linspace_ok by done; reflexivity).
  erewrite (bind_ok _ _ h h fade).
  2:{ subst fade. unfold gain_in, ret.
      destruct Hmode as [-> | [-> | ->]]; reflexivity. }
  erewrite bind_ok by (by apply copy_ok).
  erewrite bind_ok by apply len_new.
  fold n. erewrite bind_ok.
  2:{ rewrite imul_slice_new, Nat.sub_0_r, drop_0, broadcast_mul_same_length.
      - reflexivity.
      - rewrite !length_take. lia. }
  done.
Qed.

Lemma fade_out_envelope data duration sampling_rate mode h arr :
  h !! data = Some arr ->
  valid_mode mode ->
  (0 <= int (sampling_rate * duration))%Z ->
  let fade := gain_out mode duration <$> time_points duration sampling_rate in
  let l := length arr in
  let n := (length fade `min` l)%nat in
  fade_out data duration sampling_rate mode h =
    match broadcast_mul (take (l - tail_start n l) (drop (tail_start n l) arr))
                        (drop (tail_start n (length fade)) fade) with
    | Ok res => (h ++ [take (tail_start n l) arr ++ res], Ok (length h))
    | Raise e => (h ++ [arr], Raise e)
    | Blocks => (h ++ [arr], Blocks)
    end.
Proof.
  intros Hdata Hmode Hnum fade l n. unfold fade_out.
  erewrite bind_ok by (unfold lift; rewrite linspace_ok by done; reflexivity).
  erewrite bind_ok by (by apply copy_ok).
  erewrite (bind_ok _ _ _ _ fade).
  2:{ subst fade. unfold gain_out, ret.
      destruct Hmode as [-> | [-> | ->]]; reflexivity. }
  erewrite bind_ok by apply len_new.
  fold l n. unfold bind at 1. rewrite imul_slice_new.
  destruct (broadcast_mul _ _); [|done..].
  unfold ret. by rewrite (drop_ge arr l), app_nil_r.
Qed.

(** When the envelope and the signal do not overlap, the slices
    [data[-0:]] and [fade[-0:]] are the whole arrays, and the
    multiplication raises unless the signal is empty and the envelope has
    at most one point. *)
Lemma fade_out_no_overlap data duration sampling_rate mode h arr :
  h !! data = Some arr ->
  valid_mode mode ->
  (0 <= int (sampling_rate * duration))%Z ->
  let m := fade_length duration sampling_rate in
  (m `min` length arr = 0)%nat ->
  fade_out data duration sampling_rate mode h =
    if decide (length arr = 0%nat /\ (m <= 1)%nat)
    then (h ++ [arr], Ok (length h))
    else (h ++ [arr], Raise broadcast_error).
Proof.
  intros Hdata Hmode Hnum m Hn.
  rewrite (fade_out_envelope _ _ _ _ _ _ Hdata Hmode Hnum).
  set (fade := gain_out mode duration <$> _).
  assert (length fade = m) as Hm
      by (subst fade; by rewrite length_fmap, length_time_points).
  rewrite Hm, Hn. unfold tail_start. simpl.
  rewrite !drop_0, Nat.sub_0_r, firstn_all. unfold broadcast_mul.
  destruct (decide (length arr = 0%nat /\ (m <= 1)%nat)) as [[Harr Hle]|Hdec].
  - apply nil_length_inv in Harr as ->.
    destruct fade as [|g [|g' fade]]; simpl in *; [done|done|lia].
  - destruct (decide (length fade = length arr)) as [Heq|Hne].
    + exfalso. apply Hdec. lia.
    + destruct fade as [|g [|g' fade]]; simpl in *; try done.
      exfalso. apply Hdec. lia.
Qed.

(** An unknown mode: [fade_in] refuses it before touching anything;
    [fade_out] copies the signal and then fails on the unbound local. *)
Lemma fade_in_unknown_mode data duration sampling_rate mode h :
  ~ valid_mode mode ->
  (0 <= int (sampling_rate * duration))%Z ->
  fade_in data duration sampling_rate mode h = (h, Raise (ValueError invalid_mode)).
Proof.
  intros Hmode Hnum. unfold fade_in, valid_mode in *.
  erewrite bind_ok by (unfold lift; rewrite linspace_ok by done; reflexivity).
  rewrite !decide_False by tauto. done.
Qed.

Lemma fade_out_unknown_mode data duration sampling_rate mode h arr :
  h !! data = Some arr ->
  ~ valid_mode mode ->
  (0 <= int (sampling_rate * duration))%Z ->
  fade_out data duration sampling_rate mode h =
    (h ++ [arr], Raise (UnboundLocalError "fade")).
Proof.
  intros Hdata Hmode Hnum. unfold fade_out, valid_mode in *.
  erewrite bind_ok by (unfold lift; rewrite linspace_ok by done; reflexivity).
  erewrite bind_ok by (by apply copy_ok).
  rewrite !decide_False by tauto. done.
Qed.

(** Frame: whatever the arguments and however the call ends, the store
    afterwards is the store before, followed by at most the copy.  No
    array that existed before the call is changed. *)
Lemma fade_in_store data duration sampling_rate mode h :
  exists extra, (fade_in data duration sampling_rate mode h).1 = h ++ extra.
Proof.
  unfold fade_in, bind at 1, lift.
  destruct (linspace _ _ _) as [t|e|]; [|by exists []; rewrite app_nil_r..].
  unfold bind at 1.
  assert (forall fade,
    exists extra,
      (bind (copy data) (fun data0 =>
         bind (len data0) (fun l =>
           let n := (length fade `min` l)%nat in
           bind (imul_slice data0 0 n (take n fade)) (fun _ => ret data0))) h).1
      = h ++ extra) as Hrest.
  { intros fade. unfold bind at 1, copy, bind at 1, read.
    destruct (h !! data) as [arr|]; [|by exists []; rewrite app_nil_r].
    unfold bind at 1. rewrite len_new. unfold bind at 1.
    rewrite imul_slice_new.
    destruct (broadcast_mul _ _); eexists [_]; reflexivity. }
  repeat case_decide; unfold ret, raise; try apply Hrest.
  by exists []; rewrite app_nil_r.
Qed.

Lemma fade_out_store data duration sampling_rate mode h :
  exists extra, (fade_out data duration sampling_rate mode h).1 = h ++ extra.
Proof.
  unfold fade_out, bind at 1, lift.
  destruct (linspace _ _ _) as [t|e|]; [|by exists []; rewrite app_nil_r..].
  unfold bind at 1, copy, bind at 1, read.
  destruct (h !! data) as [arr|]; [|by exists []; rewrite app_nil_r].
  unfold bind at 1.
  assert (forall fade,
    exists extra,
      (bind (len (length h)) (fun l =>
         let n := (length fade `min` l)%nat in
         bind (imul_slice (length h) (tail_start n l) l
                          (drop (tail_start n (length fade)) fade))
              (fun _ => ret (length h))) (h ++ [arr])).1
      = h ++ extra) as Hrest.
  { intros fade. unfold bind at 1. rewrite len_new. unfold bind at 1.
    rewrite imul_slice_new.
    destruct (broadcast_mul _ _); eexists [_]; reflexivity. }
  repeat case_decide; unfold ret, raise; try apply Hrest.
  by exists [arr].
Qed.

Lemma fade_in_preserves_input data duration sampling_rate mode h a arr :
  h !! a = Some arr ->
  (fade_in data duration sampling_rate mode h).1 !! a = Some arr.
Proof.
  intros H. destruct (fade_in_store data duration sampling_rate mode h) as [extra ->].
  by apply lookup_app_l_Some.
Qed.

Lemma fade_out_preserves_input data duration sampling_rate mode h a arr :
  h !! a = Some arr ->
  (fade_out data duration sampling_rate mode h).1 !! a = Some arr.
Proof.
  intros H. destruct (fade_out_store data duration sampling_rate mode h) as [extra ->].
  by apply lookup_app_l_Some.
Qed.

(** The samples of the array [fade_in] returns: the first [n] are scaled
    by the envelope, the others are those of the input. *)
Lemma fade_in_samples (arr fade : list R) :
  let n := (length fade `min` length arr)%nat in
  let arr' := zip_with Rmult (take n arr) (take n fade) ++ drop n arr in
  length arr' = length arr /\
  (forall i, (n <= i)%nat -> arr' !! i = arr !! i) /\
  (forall i x g, arr !! i = Some x -> fade !! i = Some g ->
                 arr' !! i = Some (x * g)).
Proof.
  intros n arr'.
  assert (length (zip_with Rmult (take n arr) (take n fade)) = n) as Hz
      by (rewrite length_zip_with, !length_take; lia).
  split; [|split].
  - subst arr'. rewrite length_app, Hz, length_drop. lia.
  - intros i Hi. subst arr'.
    rewrite lookup_app_r by lia. rewrite Hz, lookup_drop. f_equal. lia.
  - intros i x g Hx Hg. subst arr'.
    assert (i < n)%nat as Hi
        by (apply lookup_lt_Some in Hx, Hg; lia).
    rewrite lookup_app_l by lia.
    rewrite lookup_zip_with, !lookup_take_lt by done.
    by rewrite Hx, Hg.
Qed.

(** The samples of the array [fade_out] returns when [1 <= n]: the last
    [n] are scaled by the last [n] points of the envelope, the others are
    those of the input. *)
Lemma fade_out_samples (arr fade : list R) :
  let l := length arr in
  let n := (length fade `min` l)%nat in
  let arr' := take (l - n) arr ++
              zip_with Rmult (drop (l - n) arr) (drop (length fade - n) fade) in
  length arr' = l /\
  (forall i, (i < l - n)%nat -> arr' !! i = arr !! i) /\
  (forall j x g, arr !! (l - n + j)%nat = Some x ->
                 fade !! (length fade - n + j)%nat = Some g ->
                 arr' !! (l - n + j)%nat = Some (x * g)).
Proof.
  intros l n arr'.
  assert (length (take (l - n) arr) = (l - n)%nat) as Ht
      by (rewrite length_take; lia).
  split; [|split].
  - subst arr'. rewrite length_app, Ht, length_zip_with, !length_drop. lia.
  - intros i Hi. subst arr'.
    rewrite lookup_app_l by lia. by rewrite lookup_take_lt.
  - intros j x g Hx Hg. subst arr'.
    rewrite lookup_app_r by lia. rewrite Ht.
    replace (l - n + j - (l - n))%nat with j by lia.
    rewrite lookup_zip_with, !lookup_drop. by rewrite Hx, Hg.
Qed.

Lemma cubic_not_valid : ~ valid_mode "cubic".
Proof. unfold valid_mode. intros [H | [H | H]]; discriminate. Qed.

Lemma int_4410 : int (44100 * 0.1) = 4410%Z.
Proof. replace (44100 * 0.1) with (IZR 4410) by lra. apply int_IZR. Qed.

Lemma fade_length_zero duration sampling_rate :
  0 <= sampling_rate * duration < 1 ->
  int (sampling_rate * duration) = 0%Z /\
  fade_length duration sampling_rate = 0%nat.
Proof. intros H. unfold fade_length. by rewrite (int_small _ H). Qed.

(** C8.  With the mode "cubic", which is none of the three, [fade_in]
    raises its [ValueError] naming the options before doing anything,
    but [fade_out], which has no such branch, first copies the signal
    and then raises [UnboundLocalError] on its local [fade]. *)
Theorem fade_out_unknown_mode_not_descriptive :
  fade_in 0 0.1 44100 "cubic" [[1; 2]] =
    ([[1; 2]], Raise (ValueError invalid_mode)) /\
  fade_out 0 0.1 44100 "cubic" [[1; 2]] =
    ([[1; 2]; [1; 2]], Raise (UnboundLocalError "fade")).
Proof.
  split.
  - apply fade_in_unknown_mode; [apply cubic_not_valid|].
    rewrite int_4410. lia.
  - apply (fade_out_unknown_mode 0 0.1 44100 "cubic" [[1; 2]] [1; 2]);
      [done|apply cubic_not_valid|].
    rewrite int_4410. lia.
Qed.

(** C9.  A fade of 0.00001 s at 44100 Hz has no point
    ([int(0.441) = 0]).  On the one-sample signal [[1]], [fade_out] then
    does not return an array: the multiplication of the copy raises.
    The signal passed in is unchanged. *)
Theorem fade_out_pointless_fade_does_not_return :
  fade_out 0 0.00001 44100 "sine" [[1]] = ([[1]; [1]], Raise broadcast_error).
Proof.
  destruct (fade_length_zero 0.00001 44100) as [Hint Hlen]; [lra|].
  rewrite (fade_out_no_overlap 0 0.00001 44100 "sine" [[1]] [1]).
  - rewrite Hlen. reflexivity.
  - done.
  - right. by left.
  - rewrite Hint. lia.
  - by rewrite Hlen.
Qed.

(** C10.  When envelope and signal overlap in no sample, [fade_in]
    returns an unchanged copy, but [fade_out] raises: with a fade of
    duration 0 on a signal of two samples, and with a fade of 4410 points
    on an empty signal, where the fade is longer than the signal. *)
Theorem fade_out_no_overlap_raises :
  fade_in 0 0 44100 "linear" [[0.5; -0.5]] =
    ([[0.5; -0.5]; [0.5; -0.5]], Ok 1%nat) /\
  fade_out 0 0 44100 "linear" [[0.5; -0.5]] =
    ([[0.5; -0.5]; [0.5; -0.5]], Raise broadcast_error) /\
  fade_in 0 0.1 44100 "linear" [[]] = ([[]; []], Ok 1%nat) /\
  fade_out 0 0.1 44100 "linear" [[]] = ([[]; []], Raise broadcast_error).
Proof.
  destruct (fade_length_zero 0 44100) as [Hint Hlen]; [lra|].
  assert (fade_length 0.1 44100 = 4410%nat) as Hlen'
      by (unfold fade_length; by rewrite int_4410).
  split; [|split; [|split]].
  - rewrite (fade_in_returns 0 0 44100 "linear" [[0.5; -0.5]] [0.5; -0.5]);
      [|done|by left|rewrite Hint; lia].
    by rewrite length_fmap, length_time_points, Hlen.
  - rewrite (fade_out_no_overlap 0 0 44100 "linear" [[0.5; -0.5]] [0.5; -0.5]);
      [|done|by left|rewrite Hint; lia|by rewrite Hlen].
    by rewrite Hlen.
  - rewrite (fade_in_returns 0 0.1 44100 "linear" [[]] []);
      [|done|by left|rewrite int_4410; lia].
    simpl. by rewrite Nat.min_0_r.
  - rewrite (fade_out_no_overlap 0 0.1 44100 "linear" [[]] []);
      [|done|by left|rewrite int_4410; lia|by rewrite Nat.min_0_r].
    by rewrite Hlen'.
Qed.

End FadeFacts.

(** ** Streaming: further properties *)

Module StreamProps.
Import Py Np Stream StreamFacts.

(** X1.  From the start of a stream until it is stopped, the counter of
    its callback is the number of samples the driver has requested:
    posting codes does not move it and nothing resets it. *)
Theorem counter_is_samples_requested chords_dict a fs r q es cb :
  Stop ∉ es ->
  run chords_dict Idle (Start a fs r q :: es) = Some (Active cb) ->
  counter cb = requested es.
Proof.
  intros Hstop Hrun. simpl in Hrun.
  by rewrite (counter_counts_frames _ _ _ _ Hstop Hrun).
Qed.

Lemma counter_is_samples_requested_witness :
  exists cb,
    run ∅ Idle [Start 0.2 [440] 44100 (Some []); Request [[0]; [0]] 2;
                Post "Am"; Request [[0]; [0]; [0]] 3] = Some (Active cb) /\
    counter cb = 5%Z.
Proof.
  eexists. split; [reflexivity|].
  apply (counter_is_samples_requested ∅ 0.2 [440] 44100 (Some [])
           [Request [[0]; [0]] 2; Post "Am"; Request [[0]; [0]; [0]] 3]).
  - intros H. repeat (apply elem_of_cons in H as [H|H]; [discriminate|]).
    by apply elem_of_nil in H.
  - reflexivity.
Defined.

(** X2.  Codes are consumed in the order they were posted, one per
    buffer: after [k] requests in a row the closure has taken the first
    [k] queued codes, each known code replacing the frequency set and each
    unknown code leaving it, and the others are still queued in order. *)
Theorem codes_consumed_in_order chords_dict cb codes reqs cb' :
  queue cb = Some codes ->
  run chords_dict (Active cb) ((fun p => Request p.1 p.2) <$> reqs) = Some (Active cb') ->
  queue cb' = Some (drop (length reqs) codes) /\
  freqs cb' = foldl (fun F c => default F (chords_dict !! c)) (freqs cb)
                    (take (length reqs) codes).
Proof.
  revert cb codes. induction reqs as [|[outdata frames] reqs IH];
    intros cb codes Hq Hrun; simpl in Hrun.
  - injection Hrun as <-. by rewrite drop_0, take_0.
  - destruct (callback chords_dict cb outdata frames) as [[cb1 out1] res] eqn:Hcall.
    destruct res as [[]|e|]; try done.
    destruct (callback_consumes chords_dict cb outdata frames)
      as (code & q' & Hc & Hf & Hq').
    rewrite Hcall in Hf, Hq'. simpl in Hf, Hq'.
    rewrite Hq, try_consume_returns in Hc.
    destruct codes as [|c codes]; injection Hc as <- <-.
    + destruct (IH cb1 [] Hq' Hrun) as [IHq IHf].
      rewrite IHq, IHf, Hf. by rewrite !drop_nil, !take_nil.
    + destruct (IH cb1 codes Hq' Hrun) as [IHq IHf].
      rewrite IHq, IHf, Hf. done.
Qed.

Lemma codes_consumed_in_order_witness :
  exists cb',
    run (Chords.chords_dict Chords.example_notes)
        (Active (Closure 0.2 [440] 44100 (Some ["Am"; "H7"; "Em"]) 0))
        [Request [[0]] 1; Request [[0]] 1] = Some (Active cb') /\
    queue cb' = Some ["Em"].
Proof.
  eexists. split; [reflexivity|].
  apply (codes_consumed_in_order (Chords.chords_dict Chords.example_notes)
           (Closure 0.2 [440] 44100 (Some ["Am"; "H7"; "Em"]) 0)
           ["Am"; "H7"; "Em"] [([[0]], 1%nat); ([[0]], 1%nat)]);
    reflexivity.
Defined.




(** X4.  A buffer whose number of rows is neither [frames] nor fits a
    single frame goes unnoticed while the frequency set selected for it is
    empty: the call returns a zeroed buffer and advances the counter.  As
    soon as there is a frequency to add, the call raises NumPy's broadcast
    error: the buffer is left zeroed and the counter is not advanced, but
    the pending code is already off the queue and the frequency set
    already replaced. *)
Theorem callback_wrong_buffer chords_dict cb outdata frames code queue' :
  try_consume (queue cb) = Ok (code, queue') ->
  length outdata <> frames ->
  frames <> 1%nat ->
  let fs := select_freqs chords_dict code (freqs cb) in
  (fs = [] ->
   callback chords_dict cb outdata frames =
     (Closure (amplitude cb) [] (sampling_rate cb) queue'
              (counter cb + Z.of_nat frames),
      fill_zero outdata, Ok tt)) /\
  (fs <> [] ->
   callback chords_dict cb outdata frames =
     (Closure (amplitude cb) fs (sampling_rate cb) queue' (counter cb),
      fill_zero outdata, Raise broadcast_error)).
Proof.
  intros Hc Hlen Hone fs. subst fs. unfold callback. rewrite Hc. split.
  - by intros ->.
  - intros Hfs.
    destruct (select_freqs chords_dict code (freqs cb)) as [|f fs]; [done|].
    simpl. unfold iadd_column.
    rewrite decide_False
      by (unfold sine_column;
          rewrite length_fmap, length_time_vector, length_fill_zero; done).
    assert (length (sine_column (amplitude cb) f
              (time_vector (counter cb) frames (sampling_rate cb))) = frames) as Hcol
        by (unfold sine_column; by rewrite length_fmap, length_time_vector).
    destruct (sine_column _ _ _) as [|v [|v' col]]; simpl in Hcol; [done|lia|done].
Qed.

Lemma callback_wrong_buffer_witness :
  callback ∅ (Closure 0.2 [] 44100 None 7) [[1; 1]; [1; 1]; [1; 1]] 2 =
    (Closure 0.2 [] 44100 None 9, [[0; 0]; [0; 0]; [0; 0]], Ok tt) /\
  callback (Chords.chords_dict Chords.example_notes)
           (Closure 0.2 [440] 44100 (Some ["H7"]) 0) [[1]; [1]; [1]] 2 =
    (Closure 0.2 [440] 44100 (Some []) 0, [[0]; [0]; [0]], Raise broadcast_error).
Proof.
  split.
  - apply (callback_wrong_buffer ∅ (Closure 0.2 [] 44100 None 7)
             [[1; 1]; [1; 1]; [1; 1]] 2 None None);
      [reflexivity | simpl; lia | lia | reflexivity].
  - apply (callback_wrong_buffer (Chords.chords_dict Chords.example_notes)
             (Closure 0.2 [440] 44100 (Some ["H7"]) 0) [[1]; [1]; [1]] 2
             (Some "H7") (Some []));
      [reflexivity | simpl; lia | lia | discriminate].
Defined.

(** X5.  A callback made without a queue plays the frequency set it was
    made with for as long as its stream runs. *)
Theorem no_queue_keeps_freqs chords_dict cb es cb' :
  queue cb = None ->
  run chords_dict (Active cb) es = Some (Active cb') ->
  Stop ∉ es ->
  freqs cb' = freqs cb /\ queue cb' = None.
Proof.
  revert cb. induction es as [|e es IH]; intros cb Hq Hrun Hstop; simpl in Hrun.
  - by injection Hrun as <-.
  - apply not_elem_of_cons in Hstop as [Hne Hstop].
    destruct e as [a fs r q|outdata frames|code|]; simpl in Hrun; try done.
    + destruct (callback chords_dict cb outdata frames) as [[cb1 out1] res] eqn:Hcall.
      destruct res as [[]|e|]; try done.
      destruct (callback_consumes chords_dict cb outdata frames)
        as (code & q' & Hc & Hf & Hq').
      rewrite Hcall in Hf, Hq'. simpl in Hf, Hq'.
      rewrite Hq in Hc. simpl in Hc. injection Hc as <- <-.
      destruct (IH cb1 Hq' Hrun Hstop) as [-> ->]. by rewrite Hf.
    + apply (IH (post code cb)); [|done..]. simpl. by rewrite Hq.
Qed.

Lemma no_queue_keeps_freqs_witness :
  exists cb',
    run ∅ (Active (Closure 0.2 [440] 44100 None 0))
        [Request [[0]] 1; Post "Am"; Request [[0]] 1] = Some (Active cb') /\
    freqs cb' = [440].
Proof.
  eexists. split; [reflexivity|].
  apply (no_queue_keeps_freqs ∅ (Closure 0.2 [440] 44100 None 0)
           [Request [[0]] 1; Post "Am"; Request [[0]] 1]).
  - reflexivity.
  - reflexivity.
  - intros H. repeat (apply elem_of_cons in H as [H|H]; [discriminate|]).
    by apply elem_of_nil in H.
Defined.

End StreamProps.

(** ** Fades: further properties *)

Module FadeProps.
Import Py Np Fade FadeFacts.

Lemma lookup_time_points duration sampling_rate k :
  (k < fade_length duration sampling_rate)%nat ->
  time_points duration sampling_rate !! k =
    Some (IZR (Z.of_nat k) * ((duration - 0) / IZR (int (sampling_rate * duration))) + 0).
Proof.
  intros Hk. unfold time_points, arange.
  by rewrite !list_lookup_fmap, lookup_seq_lt.
Qed.

(** A point of the envelope's time vector is [k / num] of the duration,
    for some [k < num]. *)
Lemma time_point_fraction duration sampling_rate t :
  t ∈ time_points duration sampling_rate ->
  exists x, 0 <= x < 1 /\ t = x * duration /\ duration <> 0.
Proof.
  intros Ht. apply list_elem_of_lookup in Ht as [k Hk].
  assert (k < fade_length duration sampling_rate)%nat as Hlt
      by (apply lookup_lt_Some in Hk; by rewrite length_time_points in Hk).
  rewrite lookup_time_points in Hk by done. injection Hk as <-.
  unfold fade_length in Hlt.
  set (num := int (sampling_rate * duration)) in *.
  assert (0 < num)%Z as Hnum by lia.
  assert (0 < IZR num) as Hnum' by (by apply IZR_lt).
  assert (duration <> 0) as Hd.
  { intros ->. subst num. rewrite Rmult_0_r in Hnum.
    change 0 with (IZR 0) in Hnum. rewrite int_IZR in Hnum. lia. }
  exists (IZR (Z.of_nat k) / IZR num). split; [|split; [|done]].
  - assert (0 <= IZR (Z.of_nat k) < IZR num) as [H1 H2].
    { split; [apply IZR_le; lia | apply IZR_lt; lia]. }
    split.
    + apply Rmult_le_pos; [done|]. left. by apply Rinv_0_lt_compat.
    + apply (Rmult_lt_reg_r (IZR num)); [done|].
      unfold Rdiv. rewrite Rmult_assoc, Rinv_l by lra. lra.
  - unfold Rdiv. ring.
Qed.

Lemma quarter_turn x d :
  d <> 0 -> 2 * PI * (x * d) * 0.25 / d = x * (PI / 2).
Proof. intros Hd. replace 0.25 with (1 / 4) by lra. field. done. Qed.

(** X6.  On every point of the envelope, for every valid mode, the gain
    of [fade_in] and the gain of [fade_out] lie between 0 and 1: a fade
    never amplifies a sample and never inverts it. *)
Theorem fade_gains_between_0_and_1 mode duration sampling_rate t :
  valid_mode mode ->
  t ∈ time_points duration sampling_rate ->
  0 <= gain_in mode duration t <= 1 /\ 0 <= gain_out mode duration t <= 1.
Proof.
  intros Hmode Ht.
  destruct (time_point_fraction _ _ _ Ht) as (x & Hx & -> & Hd).
  pose proof PI_RGT_0 as Hpi.
  assert (0 <= x * (PI / 2) <= PI / 2) as Hq by nra.
  assert (0 <= sin (x * (PI / 2)) <= 1) as Hsin.
  { split; [apply sin_ge_0; lra|]. pose proof (SIN_bound (x * (PI / 2))). lra. }
  assert (0 <= cos (x * (PI / 2)) <= 1) as Hcos.
  { split; [apply cos_ge_0; lra|]. pose proof (COS_bound (x * (PI / 2))). lra. }
  assert (x * duration / duration = x) as Hlin by (field; done).
  unfold gain_in, gain_out.
  destruct Hmode as [-> | [-> | ->]]; repeat case_decide; try done;
    rewrite ?quarter_turn, ?Hlin by done; simpl; nra.
Qed.

Lemma first_time_point :
  time_points 0.1 44100 !! 0%nat =
    Some (IZR (Z.of_nat 0) * ((0.1 - 0) / IZR (int (44100 * 0.1))) + 0).
Proof.
  apply lookup_time_points. unfold fade_length. rewrite int_4410. lia.
Qed.

Lemma fade_gains_between_0_and_1_witness :
  0 <= gain_in "sine" 0.1
         (IZR (Z.of_nat 0) * ((0.1 - 0) / IZR (int (44100 * 0.1))) + 0) <= 1 /\
  0 <= gain_out "sine" 0.1
         (IZR (Z.of_nat 0) * ((0.1 - 0) / IZR (int (44100 * 0.1))) + 0) <= 1.
Proof.
  apply (fade_gains_between_0_and_1 "sine" 0.1 44100).
  - right. by left.
  - apply list_elem_of_lookup. exists 0%nat. apply first_time_point.
Defined.

(** X7.  The two envelopes of a mode are complementary, which is what a
    crossfade of a faded-out and a faded-in signal relies on: for "linear"
    and "sine-squared" the gains add up to 1 at every time, for "sine"
    their squares do. *)
Theorem crossfade_gains_complementary duration t :
  gain_in "linear" duration t + gain_out "linear" duration t = 1 /\
  gain_in "sine-squared" duration t + gain_out "sine-squared" duration t = 1 /\
  gain_in "sine" duration t ^ 2 + gain_out "sine" duration t ^ 2 = 1.
Proof.
  unfold gain_in, gain_out. repeat case_decide; try done.
  set (x := 2 * PI * t * 0.25 / duration).
  pose proof (sin2_cos2 x) as Hsc. unfold Rsqr in Hsc.
  split; [lra|]. split; simpl; lra.
Qed.

(** X10.  Neither function ever changes an array that existed before the
    call, whatever the arguments and however the call ends: they work on a
    copy. *)
Theorem fades_leave_existing_arrays data duration sampling_rate mode h a arr :
  h !! a = Some arr ->
  (fade_in data duration sampling_rate mode h).1 !! a = Some arr /\
  (fade_out data duration sampling_rate mode h).1 !! a = Some arr.
Proof.
  intros H. split;
    [by apply fade_in_preserves_input | by apply fade_out_preserves_input].
Qed.

Lemma fades_leave_existing_arrays_witness :
  (fade_in 0 0.1 44100 "cubic" [[1; 2]]).1 !! 0%nat = Some [1; 2] /\
  (fade_out 0 0.1 44100 "cubic" [[1; 2]]).1 !! 0%nat = Some [1; 2].
Proof.
  apply (fades_leave_existing_arrays 0 0.1 44100 "cubic" [[1; 2]] 0 [1; 2]).
  reflexivity.
Defined.

(** X11.  A duration and sampling rate whose product truncates to a
    negative number of points make both functions raise the [ValueError]
    of [np.linspace], before the mode is looked at and before anything is
    copied. *)
Theorem negative_fade_length_raises data duration sampling_rate mode h :
  (int (sampling_rate * duration) < 0)%Z ->
  let e := ValueError "Number of samples, num, must be non-negative." in
  fade_in data duration sampling_rate mode h = (h, Raise e) /\
  fade_out data duration sampling_rate mode h = (h, Raise e).
Proof.
  intros Hneg e. unfold fade_in, fade_out, bind, lift, linspace.
  destruct (Z.ltb_spec (int (sampling_rate * duration)) 0); [done|lia].
Qed.

Lemma negative_fade_length_raises_witness :
  fade_in 0 (-1) 44100 "linear" [[1; 2]] =
    ([[1; 2]], Raise (ValueError "Number of samples, num, must be non-negative.")) /\
  fade_out 0 (-1) 44100 "linear" [[1; 2]] =
    ([[1; 2]], Raise (ValueError "Number of samples, num, must be non-negative.")).
Proof.
  apply (negative_fade_length_raises 0 (-1) 44100 "linear" [[1; 2]]).
  replace (44100 * -1) with (IZR (-44100)) by lra. rewrite int_IZR. lia.
Defined.

Lemma gain_in_at_0 mode duration : gain_in mode duration 0 = 0.
Proof.
  unfold gain_in.
  replace (2 * PI * 0 * 0.25 / duration) with 0 by (unfold Rdiv; ring).
  rewrite sin_0. repeat case_decide; unfold Rdiv; simpl; ring.
Qed.

(** X12.  [fade_in] starts from silence: when the envelope has a point
    and the signal a sample, the first sample of the returned array is 0,
    for every valid mode. *)
Theorem fade_in_starts_at_zero data duration sampling_rate mode h arr x :
  h !! data = Some arr ->
  valid_mode mode ->
  (1 <= int (sampling_rate * duration))%Z ->
  arr !! 0%nat = Some x ->
  exists arr',
    fade_in data duration sampling_rate mode h = (h ++ [arr'], Ok (length h)) /\
    arr' !! 0%nat = Some 0.
Proof.
  intros Hdata Hmode Hnum Hx.
  pose proof (fade_in_returns data duration sampling_rate mode h arr
                Hdata Hmode ltac:(lia)) as Hret.
  simpl in Hret. eexists. split; [exact Hret|].
  set (fade := gain_in mode duration <$> time_points duration sampling_rate).
  destruct (fade_in_samples arr fade) as (_ & _ & Hhead).
  rewrite (Hhead 0%nat x (gain_in mode duration
             (IZR (Z.of_nat 0) * ((duration - 0) / IZR (int (sampling_rate * duration))) + 0))).
  - f_equal.
    replace (IZR (Z.of_nat 0) * ((duration - 0) / IZR (int (sampling_rate * duration))) + 0)
      with 0 by (simpl; ring).
    rewrite gain_in_at_0 by done. ring.
  - done.
  - subst fade. rewrite list_lookup_fmap, lookup_time_points; [done|].
    unfold fade_length. lia.
Qed.

Lemma fade_in_starts_at_zero_witness :
  exists arr',
    fade_in 0 0.1 44100 "sine" [[1; 2]] = ([[1; 2]; arr'], Ok 1%nat) /\
    arr' !! 0%nat = Some 0.
Proof.
  apply (fade_in_starts_at_zero 0 0.1 44100 "sine" [[1; 2]] [1; 2] 1).
  - reflexivity.
  - right. by left.
  - rewrite int_4410. lia.
  - reflexivity.
Defined.

(** X13.  [fade_out] does not end in silence: at every point of its
    envelope, the last one included, the gain is strictly positive, so a
    sample that is not 0 is never brought to 0. *)
Theorem fade_out_gain_positive mode duration sampling_rate t :
  valid_mode mode ->
  t ∈ time_points duration sampling_rate ->
  0 < gain_out mode duration t.
Proof.
  intros Hmode Ht.
  destruct (time_point_fraction _ _ _ Ht) as (x & Hx & -> & Hd).
  pose proof PI_RGT_0 as Hpi.
  assert (0 < cos (x * (PI / 2))) as Hcos by (apply cos_gt_0; nra).
  assert (x * duration / duration = x) as Hlin by (field; done).
  unfold gain_out.
  destruct Hmode as [-> | [-> | ->]]; repeat case_decide; try done;
    rewrite ?quarter_turn, ?Hlin by done; simpl; nra.
Qed.

Lemma fade_out_gain_positive_witness :
  0 < gain_out "sine-squared" 0.1
        (IZR (Z.of_nat 0) * ((0.1 - 0) / IZR (int (44100 * 0.1))) + 0).
Proof.
  apply (fade_out_gain_positive "sine-squared" 0.1 44100).
  - right. by right.
  - apply list_elem_of_lookup. exists 0%nat. apply first_time_point.
Defined.

End FadeProps.

(** ** Offline synthesis *)

Module SynthFacts.
Import Py Np Stream StreamFacts Fade FadeFacts FadeProps Synth.

Lemma sine_wave_ok f a duration sampling_rate :
  (0 <= int (sampling_rate * duration))%Z ->
  sine_wave f a duration sampling_rate =
    Ok ((fun ti => a * sin (2 * PI * f * ti)) <$> time_points duration sampling_rate).
Proof. intros H. unfold sine_wave. by rewrite linspace_ok. Qed.

(** X16.  Streaming and offline synthesis agree: when the duration is a
    whole number [num] of sample periods, the first buffer of [num] frames
    of a stream made for the single frequency [f] holds, on every channel
    of row [i], sample [i] of [sine_wave(f, a, duration, sampling_rate)]. *)
Theorem streaming_reproduces_sine_wave f a duration sampling_rate num outdata :
  0 < sampling_rate ->
  sampling_rate * duration = IZR (Z.of_nat num) ->
  length outdata = num ->
  exists xs cb' out',
    sine_wave f a duration sampling_rate = Ok xs /\
    callback ∅ (generate_callback a [f] sampling_rate None) outdata num
      = (cb', out', Ok tt) /\
    length xs = num /\
    forall i row x, outdata !! i = Some row -> xs !! i = Some x ->
                    out' !! i = Some (map (fun _ => x) row).
Proof.
  intros Hsr Hwhole Hlen.
  assert (int (sampling_rate * duration) = Z.of_nat num) as Hint
      by (rewrite Hwhole; apply int_IZR).
  assert (fade_length duration sampling_rate = num) as Hfl
      by (unfold fade_length; rewrite Hint; lia).
  destruct (callback_same_length ∅ (generate_callback a [f] sampling_rate None)
              outdata num Hlen) as (code & q' & Hc & Hcall).
  simpl in Hc. injection Hc as <- <-. simpl in Hcall.
  eexists _, _, _. split; [apply sine_wave_ok; lia|]. split; [exact Hcall|].
  split; [by rewrite length_fmap, length_time_points|].
  intros i row x Hrow Hx.
  assert (i < num)%nat as Hi by (apply lookup_lt_Some in Hrow; lia).
  rewrite list_lookup_fmap, lookup_time_points in Hx by lia.
  injection Hx as <-.
  rewrite lookup_zip_with, Hrow. simpl.
  rewrite lookup_time_vector by done. simpl. f_equal. apply map_ext. intros _.
  rewrite sines_at_cons. unfold sines_at. simpl. rewrite Rplus_0_r.
  do 3 f_equal. rewrite Hint.
  assert (0 < IZR (Z.of_nat num)) as Hnum by (apply IZR_lt; lia).
  assert (duration <> 0) as Hd by (intros ->; rewrite Rmult_0_r in Hwhole; lra).
  rewrite <- Hwhole, Z.add_0_l. field. split; lra.
Qed.

Lemma streaming_reproduces_sine_wave_witness :
  exists xs cb' out',
    sine_wave 440 0.2 0.5 4 = Ok xs /\
    callback ∅ (generate_callback 0.2 [440] 4 None) [[0]; [0]] 2 = (cb', out', Ok tt) /\
    length xs = 2%nat.
Proof.
  destruct (streaming_reproduces_sine_wave 440 0.2 0.5 4 2 [[0]; [0]])
    as (xs & cb' & out' & H1 & H2 & H3 & _).
  - lra.
  - change (4 * 0.5 = 2). lra.
  - reflexivity.
  - exists xs, cb', out'. auto.
Defined.

Lemma read_ok h a arr : h !! a = Some arr -> read a h = (h, Ok arr).
Proof. intros H. unfold read. by rewrite H. Qed.

Lemma idiv_ok h a arr x :
  h !! a = Some arr ->
  idiv a x h = (<[a := (fun w => w / x) <$> arr]> h, Ok tt).
Proof. intros H. unfold idiv, bind, read. by rewrite H. Qed.

Lemma foldl_add_at (t x : R) (gs : list (R -> R)) :
  foldl (fun acc g => acc + g t) x gs = x + foldr Rplus 0 ((fun g => g t) <$> gs).
Proof.
  revert x. induction gs as [|g gs IH]; intros x; [simpl; lra|].
  rewrite fmap_cons. cbn [foldl foldr]. rewrite IH. lra.
Qed.

Lemma foldl_zip_with_rows (tp : list R) (g0 : R -> R) (gs : list (R -> R)) :
  foldl (zip_with Rplus) (g0 <$> tp) ((fun g => g <$> tp) <$> gs) =
  (fun t => foldl (fun acc g => acc + g t) (g0 t) gs) <$> tp.
Proof.
  revert g0. induction gs as [|g gs IH]; intros g0; simpl; [done|].
  rewrite zip_with_fmap_l, zip_with_fmap_r, zip_with_diag.
  exact (IH (fun t => g0 t + g t)).
Qed.

(** The array [np.sum(sines, axis=0)] makes of the sines of a chord. *)
Lemma sum_of_sines a (tp : list R) (fw : R * R) (fws : list (R * R)) :
  foldl (zip_with Rplus)
        ((fun t => a * fw.2 * sin (2 * PI * fw.1 * t)) <$> tp)
        ((fun fw : R * R => (fun t => a * fw.2 * sin (2 * PI * fw.1 * t)) <$> tp) <$> fws) =
  mix_at a (fw :: fws) <$> tp.
Proof.
  set (wave := fun (fw : R * R) (t : R) => a * fw.2 * sin (2 * PI * fw.1 * t)).
  change (foldl (zip_with Rplus) (wave fw <$> tp)
            (((fun g : R -> R => g <$> tp) ∘ wave) <$> fws) =
          mix_at a (fw :: fws) <$> tp).
  rewrite list_fmap_compose, foldl_zip_with_rows.
  apply list_fmap_ext. intros _ t _.
  rewrite foldl_add_at, <- list_fmap_compose. reflexivity.
Qed.

Lemma sum_fmap_div (ws : list R) x : sum ((fun w => w / x) <$> ws) = sum ws / x.
Proof.
  unfold sum. induction ws as [|w ws IH].
  - simpl. unfold Rdiv. ring.
  - rewrite fmap_cons. cbn [foldr]. rewrite IH. unfold Rdiv. ring.
Qed.

Lemma sum_nonzero_length (ws : list R) : sum ws <> 0 -> INR (length ws) <> 0.
Proof.
  intros Hs. destruct ws as [|w ws]; [done|].
  rewrite length_cons. apply not_0_INR. lia.
Qed.

Lemma sum_normalised ws : sum ws <> 0 -> sum (normalised ws) = INR (length ws).
Proof.
  intros Hs. pose proof (sum_nonzero_length ws Hs).
  unfold normalised. rewrite sum_fmap_div. field. done.
Qed.

Lemma normalised_unit_mean ws :
  INR (length ws) <> 0 -> sum ws = INR (length ws) -> normalised ws = ws.
Proof.
  intros Hn Hs. unfold normalised. rewrite Hs.
  transitivity (id <$> ws); [|apply list_fmap_id].
  apply list_fmap_ext. intros _ w _. unfold id. field. done.
Qed.

Lemma normalised_ones k : k <> 0%nat -> normalised (replicate k 1) = replicate k 1.
Proof.
  intros Hk. apply normalised_unit_mean.
  - rewrite length_replicate. by apply not_0_INR.
  - rewrite length_replicate. unfold sum.
    clear Hk. induction k as [|k IH]; [done|].
    rewrite S_INR. simpl. rewrite IH. lra.
Qed.

Lemma mix_at_ones a fs t : mix_at a (zip fs (replicate (length fs) 1)) t = sines_at a fs t.
Proof.
  induction fs as [|f fs IH]; [done|].
  change (a * 1 * sin (2 * PI * f * t)
          + mix_at a (zip fs (replicate (length fs) 1)) t
          = a * sin (2 * PI * f * t) + sines_at a fs t).
  rewrite IH. ring.
Qed.

(** The first steps of [chord] on a weights array. *)
Lemma chord_unfold freqs a duration sampling_rate h w ws :
  h !! w = Some ws ->
  chord freqs a duration sampling_rate (Some w) h =
    bind (lift (mapM (fun fw : R * R =>
                        sine_wave fw.1 (a * fw.2) duration sampling_rate)
                     (zip freqs (normalised ws))))
         sum_axis0 (<[w := normalised ws]> h).
Proof.
  intros Hw.
  assert (w < length h)%nat as Hlt by (by eapply lookup_lt_Some).
  unfold chord.
  erewrite bind_ok by reflexivity.
  erewrite bind_ok by (by apply read_ok).
  erewrite bind_ok by (by apply idiv_ok).
  fold (normalised ws).
  erewrite bind_ok by (apply read_ok; by apply list_lookup_insert_eq).
  done.
Qed.

(** The store [chord] leaves: the weights array normalised, and at most
    the result appended. *)
Lemma chord_store freqs a duration sampling_rate h w ws :
  h !! w = Some ws ->
  exists extra,
    (chord freqs a duration sampling_rate (Some w) h).1 =
      <[w := normalised ws]> h ++ extra.
Proof.
  intros Hw.
  assert (w < length h)%nat as Hlt by (by eapply lookup_lt_Some).
  unfold chord.
  erewrite bind_ok by reflexivity.
  erewrite bind_ok by (by apply read_ok).
  erewrite bind_ok by (by apply idiv_ok).
  fold (normalised ws).
  erewrite bind_ok by (apply read_ok; by apply list_lookup_insert_eq).
  unfold bind, lift.
  destruct (mapM _ _) as [[|row rows]|e|]; simpl;
    [exists [] | eexists [_] | exists [] | exists []];
    by rewrite ?app_nil_r.
Qed.

(** X19.  Whatever else it does, a call of [chord] with a weights array
    overwrites that array with the weights divided by their mean (it does
    not copy, unlike the fades) and changes no other array.  The weights
    then sum to their number, and a second call leaves them as they
    are. *)
Theorem chord_normalises_weights_in_place freqs a duration sampling_rate h w ws :
  h !! w = Some ws ->
  sum ws <> 0 ->
  let h' := (chord freqs a duration sampling_rate (Some w) h).1 in
  h' !! w = Some (normalised ws) /\
  sum (normalised ws) = INR (length ws) /\
  (forall i, i <> w -> (i < length h)%nat -> h' !! i = h !! i) /\
  (forall freqs2 a2 duration2 sampling_rate2,
     (chord freqs2 a2 duration2 sampling_rate2 (Some w) h').1 !! w =
       Some (normalised ws)).
Proof.
  intros Hw Hs h'.
  assert (w < length h)%nat as Hlt by (by eapply lookup_lt_Some).
  destruct (chord_store freqs a duration sampling_rate h w ws Hw) as [extra Hh'].
  fold h' in Hh'.
  assert (h' !! w = Some (normalised ws)) as Hw'.
  { rewrite Hh', lookup_app_l by (by rewrite length_insert).
    by apply list_lookup_insert_eq. }
  split; [exact Hw'|]. split; [by apply sum_normalised|]. split.
  - intros i Hi Hil. rewrite Hh', lookup_app_l by (by rewrite length_insert).
    by apply list_lookup_insert_ne.
  - intros freqs2 a2 duration2 sampling_rate2.
    destruct (chord_store freqs2 a2 duration2 sampling_rate2 h' w _ Hw') as [extra2 ->].
    assert (w < length h')%nat by (by eapply lookup_lt_Some).
    rewrite lookup_app_l by (by rewrite length_insert).
    rewrite list_lookup_insert_eq by done. f_equal.
    apply normalised_unit_mean.
    + unfold normalised. rewrite length_fmap. by apply sum_nonzero_length.
    + rewrite sum_normalised by done. unfold normalised. by rewrite length_fmap.
Qed.

Lemma chord_normalises_weights_in_place_witness :
  (chord [440; 660] 0.3 0.1 44100 (Some 0%nat) [[1; 3]]).1 !! 0%nat =
    Some (normalised [1; 3]) /\
  sum (normalised [1; 3]) = INR 2.
Proof.
  destruct (chord_normalises_weights_in_place [440; 660] 0.3 0.1 44100
              [[1; 3]] 0 [1; 3]) as (H1 & H2 & _).
  - reflexivity.
  - unfold sum. simpl. lra.
  - split; assumption.
Defined.

(** X20.  Without a frequency there is nothing to sum: [chord] returns the
    float 0.0 instead of an array, for every duration, also one for which
    [sine_wave] would raise. *)
Theorem chord_without_frequencies a duration sampling_rate h :
  chord [] a duration sampling_rate None h = (h ++ [[]], Ok (Float 0)).
Proof.
  unfold chord, bind, alloc, read, idiv, bind, read, lift, sum_axis0, ret.
  simpl. rewrite !lookup_new. simpl. rewrite insert_new, lookup_new. done.
Qed.

(** X21.  The frequencies and the weights are paired by [zip]: with fewer
    weights than frequencies, the frequencies beyond the last weight are
    dropped without a word. *)
Theorem chord_drops_unweighted_frequencies freqs a duration sampling_rate h w ws :
  h !! w = Some ws ->
  chord freqs a duration sampling_rate (Some w) h =
  chord (take (length ws) freqs) a duration sampling_rate (Some w) h.
Proof.
  intros Hw. rewrite !(chord_unfold _ _ _ _ _ _ _ Hw).
  replace (zip (take (length ws) freqs) (normalised ws))
    with (zip freqs (normalised ws)); [done|].
  symmetry. unfold zip.
  assert (length ws = length (normalised ws)) as ->
      by (unfold normalised; by rewrite length_fmap).
  apply zip_with_take_l.
Qed.

Lemma chord_drops_unweighted_frequencies_witness :
  chord [440; 660; 880] 0.3 0.1 44100 (Some 0%nat) [[1; 3]] =
  chord (take 2 [440; 660; 880]) 0.3 0.1 44100 (Some 0%nat) [[1; 3]].
Proof.
  apply (chord_drops_unweighted_frequencies [440; 660; 880] 0.3 0.1 44100
           [[1; 3]] 0 [1; 3]).
  reflexivity.
Defined.

End SynthFacts.

(** ** The chord table: further properties *)

Module ChordsProps.
Import Py Np Chords Stream StreamFacts.

(** X25.  The dictionary has an entry for each of the fourteen chord
    codes of the literal and for no other string, and every entry is a set
    of five frequencies. *)
Theorem chords_dict_entries df_notes code :
  (is_Some (chords_dict df_notes !! code) <-> code ∈ chord_labels.*1) /\
  (forall fs, chords_dict df_notes !! code = Some fs -> length fs = 5%nat).
Proof.
  split; [apply ChordsFacts.chords_dict_known|].
  intros fs Hfs. unfold chords_dict in Hfs. cbn in Hfs.
  apply elem_of_list_to_map_2 in Hfs.
  repeat (apply elem_of_cons in Hfs as [Hfs|Hfs]; [by injection Hfs as -> ->|]).
  by apply elem_of_nil in Hfs.
Qed.

(** X26.  Posting one of the fourteen codes to the idle queue of a running
    stream makes the next buffer, and the closure from then on, use the
    five frequencies of that chord. *)
Theorem known_code_switches_chord df_notes cb code outdata frames :
  code ∈ chord_labels.*1 ->
  queue cb = Some [] ->
  length outdata = frames ->
  exists fs cb' out',
    chords_dict df_notes !! code = Some fs /\
    length fs = 5%nat /\
    callback (chords_dict df_notes) (post code cb) outdata frames = (cb', out', Ok tt) /\
    freqs cb' = fs /\
    queue cb' = Some [] /\
    forall i row, outdata !! i = Some row ->
      out' !! i =
        Some (map (fun _ => spec_sample (amplitude cb) fs
                              (sampling_rate cb) (counter cb) i) row).
Proof.
  intros Hcode Hq Hlen.
  apply ChordsFacts.chords_dict_known with (df_notes := df_notes) in Hcode as [fs Hfs].
  assert (length fs = 5%nat) as H5.
  { pose proof Hfs as Hfs'. unfold chords_dict in Hfs'. cbn in Hfs'.
    apply elem_of_list_to_map_2 in Hfs'.
    repeat (apply elem_of_cons in Hfs' as [Hfs'|Hfs']; [by injection Hfs' as -> ->|]).
    by apply elem_of_nil in Hfs'. }
  destruct (callback_same_length (chords_dict df_notes) (post code cb) outdata frames Hlen)
    as (code' & q' & Hc & Hcall).
  simpl in Hc. rewrite Hq in Hc. simpl in Hc. injection Hc as <- <-.
  cbv zeta in Hcall. unfold select_freqs in Hcall. rewrite Hfs in Hcall.
  eexists fs, _, _. split; [exact Hfs|]. split; [exact H5|]. split; [exact Hcall|].
  split; [reflexivity|]. split; [reflexivity|].
  intros i row Hrow.
  by rewrite (callback_row _ _ _ _ _ _ _ _ Hlen Hcall Hrow).
Qed.

Lemma known_code_switches_chord_witness :
  exists fs cb' out',
    chords_dict example_notes !! "Em" = Some fs /\
    length fs = 5%nat /\
    callback (chords_dict example_notes)
             (post "Em" (Closure 0.2 [440] 44100 (Some []) 0)) [[0]] 1
      = (cb', out', Ok tt) /\
    freqs cb' = fs.
Proof.
  destruct (known_code_switches_chord example_notes
              (Closure 0.2 [440] 44100 (Some []) 0) "Em" [[0]] 1)
    as (fs & cb' & out' & H1 & H2 & H3 & H4 & _).
  - cbn. repeat constructor.
  - reflexivity.
  - reflexivity.
  - exists fs, cb', out'. auto.
Defined.

End ChordsProps.

(** ** The checkerboard image *)

Module CheckerboardFacts.
Import Checkerboard.

Lemma length_join_replicate {A} (n : nat) (l : list A) :
  length (mjoin (replicate n l)) = (n * length l)%nat.
Proof.
  induction n as [|n IH]; [done|].
  simpl. rewrite length_app, IH. lia.
Qed.

Lemma lookup_join_replicate {A} (n : nat) (l : list A) (i : nat) :
  (i < n * length l)%nat ->
  mjoin (replicate n l) !! i = l !! (i mod length l)%nat.
Proof.
  revert i. induction n as [|n IH]; intros i Hi; [lia|]. simpl.
  destruct (decide (i < length l)%nat) as [Hlt|Hge].
  - rewrite lookup_app_l by done. by rewrite Nat.mod_small.
  - rewrite lookup_app_r by lia. rewrite IH by lia. f_equal.
    replace i with (i - length l + 1 * length l)%nat at 2 by lia.
    by rewrite Nat.Div0.mod_add.
Qed.

(** The 2 x 2 tile, row by row. *)
Lemma checker_tile_rows ts :
  imul_uint8 (vstack (hstack (square ts 1) (square ts 0))
                     (hstack (square ts 0) (square ts 1))) 255 =
  replicate ts (replicate ts 255 ++ replicate ts 0)%nat
    ++ replicate ts (replicate ts 0 ++ replicate ts 255)%nat.
Proof.
  unfold imul_uint8, vstack, hstack, square.
  rewrite !zip_with_replicate, map_app.
  change (map ?f (replicate ?n ?x)) with (f <$> replicate n x).
  rewrite !fmap_replicate, !map_app.
  change (map ?f (replicate ?n ?x)) with (f <$> replicate n x).
  by rewrite !fmap_replicate.
Qed.

Lemma checker_tile_pixel ts r c :
  (r < 2 * ts)%nat -> (c < 2 * ts)%nat ->
  exists row,
    (replicate ts (replicate ts 255 ++ replicate ts 0)
       ++ replicate ts (replicate ts 0 ++ replicate ts 255))%nat !! r = Some row /\
    length row = (2 * ts)%nat /\
    row !! c = Some (if Bool.eqb (r <? ts)%nat (c <? ts)%nat then 255 else 0)%nat.
Proof.
  intros Hr Hc.
  destruct (Nat.ltb_spec r ts) as [Hrt|Hrt]; destruct (Nat.ltb_spec c ts) as [Hct|Hct];
    eexists; (split; [first [rewrite lookup_app_l by (rewrite length_replicate; lia)
                            |rewrite lookup_app_r by (rewrite length_replicate; lia)];
                      apply lookup_replicate_2; rewrite ?length_replicate; lia|]);
    (split; [rewrite length_app, !length_replicate; lia|]); simpl;
    first [rewrite lookup_app_l by (rewrite length_replicate; lia)
          |rewrite lookup_app_r by (rewrite length_replicate; lia)];
    apply lookup_replicate_2; rewrite ?length_replicate; lia.
Qed.

(** A coordinate lies in the first half of its 2 x 2 tile exactly when it
    lies in an even tile. *)
Lemma first_half_even ts r :
  ts <> 0%nat -> (r mod (2 * ts) <? ts)%nat = Nat.even (r / ts).
Proof.
  intros Hts.
  pose proof (Nat.div_mod_eq r ts) as Hr.
  pose proof (Nat.mod_upper_bound r ts Hts) as Hm.
  set (q := (r / ts)%nat) in *. set (m := (r mod ts)%nat) in *.
  destruct (Nat.Even_or_Odd q) as [[k Hk]|[k Hk]].
  - replace (Nat.even q) with true by (symmetry; apply Nat.even_spec; by exists k).
    assert (m = r mod (2 * ts))%nat as <-.
    { apply (Nat.mod_unique r (2 * ts) k m); nia. }
    apply Nat.ltb_lt. lia.
  - replace (Nat.even q) with false.
    2:{ symmetry. rewrite <- Nat.negb_odd.
        replace (Nat.odd q) with true; [done|].
        symmetry. apply Nat.odd_spec. by exists k. }
    assert (ts + m = r mod (2 * ts))%nat as <-.
    { apply (Nat.mod_unique r (2 * ts) k (ts + m)); nia. }
    apply Nat.ltb_ge. lia.
Qed.

Lemma tiled_size_crop size ts :
  ts <> 0%nat ->
  (size `min` tiled_size size ts)%nat =
    if Nat.even (size / ts) then (size - size mod ts)%nat else size.
Proof.
  intros Hts. unfold tiled_size.
  pose proof (Nat.div_mod_eq size ts) as Hs.
  pose proof (Nat.mod_upper_bound size ts Hts) as Hm.
  set (q := (size / ts)%nat) in *. set (m := (size mod ts)%nat) in *.
  destruct (Nat.Even_or_Odd q) as [[k Hk]|[k Hk]].
  - replace (Nat.even q) with true by (symmetry; apply Nat.even_spec; by exists k).
    assert ((q + 1) / 2 = k)%nat as ->.
    { symmetry. apply (Nat.div_unique (q + 1) 2 k 1); lia. }
    nia.
  - replace (Nat.even q) with false.
    2:{ symmetry. rewrite <- Nat.negb_odd.
        replace (Nat.odd q) with true; [done|].
        symmetry. apply Nat.odd_spec. by exists k. }
    assert ((q + 1) / 2 = k + 1)%nat as ->.
    { symmetry. apply (Nat.div_unique (q + 1) 2 (k + 1) 0); lia. }
    nia.
Qed.

(** The tile used by [create_checkerboard_image], and the image without
    rotation. *)
Lemma create_without_rotation rotate width height ts :
  ts <> 0%nat ->
  create_checkerboard_image rotate width height ts 0 =
    inr (crop (tile (replicate ts (replicate ts 255 ++ replicate ts 0)
                       ++ replicate ts (replicate ts 0 ++ replicate ts 255))%nat
                    ((height / ts + 1) / 2) ((width / ts + 1) / 2))
              height width).
Proof.
  intros Hts. unfold create_checkerboard_image.
  rewrite decide_False by done. rewrite checker_tile_rows.
  by destruct (Req_dec_T 0 0).
Qed.

Lemma tile_shape (a : list (list nat)) n ry rx :
  length a = n ->
  Forall (fun row => length row = n) a ->
  length (tile a ry rx) = (ry * n)%nat /\
  Forall (fun row => length row = (rx * n)%nat) (tile a ry rx).
Proof.
  intros Hlen Hrows. unfold tile. split.
  - by rewrite length_join_replicate, length_map, Hlen.
  - apply Forall_forall. intros row Hrow.
    apply list_elem_of_join in Hrow as (rows & Hin & Hrows').
    apply elem_of_replicate in Hrows' as [-> _].
    change (map ?f a) with (f <$> a) in Hin.
    apply list_elem_of_fmap in Hin as (row0 & -> & Hin).
    rewrite length_join_replicate. f_equal.
    rewrite Forall_forall in Hrows. by apply Hrows.
Qed.

Lemma tile_pixel (a : list (list nat)) n ry rx r c row v :
  length a = n ->
  Forall (fun row => length row = n) a ->
  tile a ry rx !! r = Some row ->
  row !! c = Some v ->
  exists row0, a !! (r mod n)%nat = Some row0 /\ row0 !! (c mod n)%nat = Some v.
Proof.
  intros Hlen Hrows Hrow Hv. unfold tile in Hrow.
  assert (r < ry * n)%nat as Hr.
  { apply lookup_lt_Some in Hrow.
    by rewrite length_join_replicate, length_map, Hlen in Hrow. }
  rewrite lookup_join_replicate in Hrow by (by rewrite length_map, Hlen).
  rewrite length_map, Hlen in Hrow.
  change (map ?f a) with (f <$> a) in Hrow.
  rewrite list_lookup_fmap in Hrow.
  destruct (a !! (r mod n)%nat) as [row0|] eqn:Hrow0; [|done].
  injection Hrow as <-. exists row0. split; [done|].
  assert (length row0 = n) as Hn.
  { rewrite Forall_forall in Hrows. apply Hrows.
    by apply list_elem_of_lookup_2 in Hrow0. }
  assert (c < rx * n)%nat as Hc.
  { apply lookup_lt_Some in Hv. by rewrite length_join_replicate, Hn in Hv. }
  rewrite lookup_join_replicate in Hv by (by rewrite Hn). by rewrite Hn in Hv.
Qed.

Lemma checker_tile_shape ts :
  let a := (replicate ts (replicate ts 255 ++ replicate ts 0)
              ++ replicate ts (replicate ts 0 ++ replicate ts 255))%nat in
  length a = (2 * ts)%nat /\ Forall (fun row => length row = (2 * ts)%nat) a.
Proof.
  split.
  - rewrite length_app, !length_replicate. lia.
  - apply Forall_app. split; apply Forall_replicate;
      rewrite length_app, !length_replicate; lia.
Qed.

(** X22.  Without rotation the image is, for a tile size that is not 0,
    the tiling cropped to the requested size, but the tiling is not always
    large enough: a side has the requested size when the tile size divides
    it or the number of whole tiles in it is odd, and is otherwise cut
    down to a whole number of tiles.  A tile size of 0 raises
    [ZeroDivisionError]. *)
Theorem checkerboard_shape rotate width height tile_size :
  (tile_size = 0%nat ->
   create_checkerboard_image rotate width height tile_size 0 = inl ZeroDivisionError) /\
  (tile_size <> 0%nat ->
   exists image,
     create_checkerboard_image rotate width height tile_size 0 = inr image /\
     length image =
       (if Nat.even (height / tile_size)
        then (height - height mod tile_size)%nat else height) /\
     Forall (fun row =>
               length row =
                 if Nat.even (width / tile_size)
                 then (width - width mod tile_size)%nat else width) image).
Proof.
  split.
  - intros ->. reflexivity.
  - intros Hts. eexists. split; [by apply create_without_rotation|].
    destruct (checker_tile_shape tile_size) as [Hlen Hrows].
    destruct (tile_shape _ _ ((height / tile_size + 1) / 2)
                ((width / tile_size + 1) / 2) Hlen Hrows) as [Hl Hr].
    unfold crop. split.
    + rewrite length_take, length_map, Hl, <- tiled_size_crop by done.
      unfold tiled_size. lia.
    + apply Forall_take, Forall_forall. intros row Hrow.
      change (map ?f ?l) with (f <$> l) in Hrow.
      apply list_elem_of_fmap in Hrow as (row0 & -> & Hin).
      rewrite Forall_forall in Hr.
      rewrite length_take, (Hr row0) by done.
      rewrite <- tiled_size_crop by done. unfold tiled_size. lia.
Qed.

(** X23.  Without rotation every pixel is white (255) or black (0): the
    pixel in row [r] and column [c] is white exactly when the tile row
    [r // tile_size] and the tile column [c // tile_size] have the same
    parity, so the top left tile is white. *)
Theorem checkerboard_pixels rotate width height tile_size image r c row v :
  create_checkerboard_image rotate width height tile_size 0 = inr image ->
  image !! r = Some row ->
  row !! c = Some v ->
  v = if Nat.even (r / tile_size + c / tile_size) then 255%nat else 0%nat.
Proof.
  intros Hcreate Hrow Hv.
  destruct (decide (tile_size = 0%nat)) as [->|Hts]; [done|].
  rewrite create_without_rotation in Hcreate by done.
  injection Hcreate as <-. unfold crop in Hrow.
  apply lookup_take_Some in Hrow as [Hrow _].
  change (map ?f ?l) with (f <$> l) in Hrow.
  rewrite list_lookup_fmap in Hrow.
  destruct (tile _ _ _ !! r) as [row0|] eqn:Hrow0; [|done].
  injection Hrow as <-. apply lookup_take_Some in Hv as [Hv _].
  destruct (checker_tile_shape tile_size) as [Hlen Hrows].
  destruct (tile_pixel _ _ _ _ _ _ _ _ Hlen Hrows Hrow0 Hv) as (trow & Ht & Htv).
  destruct (checker_tile_pixel tile_size (r mod (2 * tile_size)) (c mod (2 * tile_size)))
    as (trow' & Ht' & _ & Htv'); [apply Nat.mod_upper_bound; lia..|].
  rewrite Ht in Ht'. injection Ht' as <-. rewrite Htv in Htv'.
  injection Htv' as ->.
  change (tile_size + (tile_size + 0))%nat with (2 * tile_size)%nat.
  by rewrite !first_half_even, Nat.even_add by done.
Qed.

Lemma checkerboard_pixels_witness :
  exists image,
    create_checkerboard_image (fun image _ _ _ => image) 3 2 1 0 = inr image /\
    forall row v, image !! 1%nat = Some row -> row !! 2%nat = Some v -> v = 0%nat.
Proof.
  assert (create_checkerboard_image (fun image _ _ _ => image) 3 2 1 0 =
          inr [[255; 0; 255]; [0; 255; 0]]%nat) as Hcreate.
  { unfold create_checkerboard_image. simpl. by destruct (Req_dec_T 0 0). }
  eexists. split; [exact Hcreate|]. intros row v Hrow Hv.
  exact (checkerboard_pixels _ 3 2 1 _ 1 2 row v Hcreate Hrow Hv).
Defined.

End CheckerboardFacts.

(** ** Fades and offline synthesis with the rounded number of points *)

Module RoundedFacts.
Import Py Np Stream StreamFacts Fade FadeFacts Synth SynthFacts.

(** With the exact product for [fl_mul], the functions of [Rounded] are
    those of [Fade] and [Synth]. *)
Lemma rounded_exact data freqs f a duration sampling_rate mode weights :
  Rounded.fade_in Rmult data duration sampling_rate mode =
    fade_in data duration sampling_rate mode /\
  Rounded.fade_out Rmult data duration sampling_rate mode =
    fade_out data duration sampling_rate mode /\
  Rounded.sine_wave Rmult f a duration sampling_rate =
    sine_wave f a duration sampling_rate /\
  Rounded.chord Rmult freqs a duration sampling_rate weights =
    chord freqs a duration sampling_rate weights.
Proof. repeat split. Qed.

Lemma rounded_linspace_ok fl_mul duration sampling_rate :
  (0 <= int (fl_mul sampling_rate duration))%Z ->
  linspace 0 duration (int (fl_mul sampling_rate duration)) =
    Ok (Rounded.time_points fl_mul duration sampling_rate).
Proof.
  intros H. unfold linspace.
  destruct (Z.ltb_spec (int (fl_mul sampling_rate duration)) 0); [lia|done].
Qed.

Lemma rounded_length_time_points fl_mul duration sampling_rate :
  length (Rounded.time_points fl_mul duration sampling_rate) =
    Rounded.num_points fl_mul duration sampling_rate.
Proof.
  unfold Rounded.time_points, arange. by rewrite !length_fmap, length_seq.
Qed.

Lemma rounded_fade_in_returns fl_mul data duration sampling_rate mode h arr :
  h !! data = Some arr ->
  valid_mode mode ->
  (0 <= int (fl_mul sampling_rate duration))%Z ->
  let fade := gain_in mode duration
                <$> Rounded.time_points fl_mul duration sampling_rate in
  let n := (length fade `min` length arr)%nat in
  Rounded.fade_in fl_mul data duration sampling_rate mode h =
    (h ++ [zip_with Rmult (take n arr) (take n fade) ++ drop n arr], Ok (length h)).
Proof.
  intros Hdata Hmode Hnum fade n. unfold Rounded.fade_in.
  erewrite bind_ok
    by (unfold lift; rewrite rounded_linspace_ok by done; reflexivity).
  erewrite (bind_ok _ _ h h fade).
  2:{ subst fade. unfold gain_in, ret.
      destruct Hmode as [-> | [-> | ->]]; reflexivity. }
  erewrite bind_ok by (by apply copy_ok).
  erewrite bind_ok by apply len_new.
  fold n. erewrite bind_ok.
  2:{ rewrite imul_slice_new, Nat.sub_0_r, drop_0, broadcast_mul_same_length.
      - reflexivity.
      - rewrite !length_take. lia. }
  done.
Qed.

Lemma rounded_fade_out_returns fl_mul data duration sampling_rate mode h arr :
  h !! data = Some arr ->
  valid_mode mode ->
  (0 <= int (fl_mul sampling_rate duration))%Z ->
  let fade := gain_out mode duration
                <$> Rounded.time_points fl_mul duration sampling_rate in
  let l := length arr in
  let n := (length fade `min` l)%nat in
  (1 <= n)%nat ->
  Rounded.fade_out fl_mul data duration sampling_rate mode h =
    (h ++ [take (l - n) arr ++
           zip_with Rmult (drop (l - n) arr) (drop (length fade - n) fade)],
     Ok (length h)).
Proof.
  intros Hdata Hmode Hnum fade l n Hn. unfold Rounded.fade_out.
  erewrite bind_ok
    by (unfold lift; rewrite rounded_linspace_ok by done; reflexivity).
  erewrite bind_ok by (by apply copy_ok).
  erewrite (bind_ok _ _ _ _ fade).
  2:{ subst fade. unfold gain_out, ret.
      destruct Hmode as [-> | [-> | ->]]; reflexivity. }
  erewrite bind_ok by apply len_new.
  fold l n. unfold bind at 1. rewrite imul_slice_new.
  unfold tail_start. rewrite !decide_False by lia.
  rewrite take_ge by (rewrite length_drop; lia).
  rewrite broadcast_mul_same_length by (rewrite !length_drop; lia).
  unfold ret. by rewrite (drop_ge arr l), app_nil_r.
Qed.

Lemma rounded_sine_wave_ok fl_mul f a duration sampling_rate :
  (0 <= int (fl_mul sampling_rate duration))%Z ->
  Rounded.sine_wave fl_mul f a duration sampling_rate =
    Ok ((fun ti => a * sin (2 * PI * f * ti))
          <$> Rounded.time_points fl_mul duration sampling_rate).
Proof. intros H. unfold Rounded.sine_wave. by rewrite rounded_linspace_ok. Qed.

Lemma rounded_mapM_sine_waves fl_mul a duration sampling_rate (fws : list (R * R)) :
  (0 <= int (fl_mul sampling_rate duration))%Z ->
  mapM (fun fw : R * R =>
          Rounded.sine_wave fl_mul fw.1 (a * fw.2) duration sampling_rate) fws =
    Ok ((fun fw : R * R =>
           (fun t => a * fw.2 * sin (2 * PI * fw.1 * t))
             <$> Rounded.time_points fl_mul duration sampling_rate) <$> fws).
Proof.
  intros Hnum. induction fws as [|fw fws IH]; [done|].
  simpl. rewrite rounded_sine_wave_ok by done. simpl. rewrite IH. done.
Qed.

(** What [chord] does with a weights array: the array is normalised in
    place and, when there is a pair of a frequency and a weight, a new
    array holds the weighted sum of the sines. *)
Lemma rounded_chord_with_weights fl_mul freqs a duration sampling_rate h w ws :
  h !! w = Some ws ->
  (0 <= int (fl_mul sampling_rate duration))%Z ->
  zip freqs ws <> [] ->
  Rounded.chord fl_mul freqs a duration sampling_rate (Some w) h =
    (<[w := normalised ws]> h
       ++ [mix_at a (zip freqs (normalised ws))
             <$> Rounded.time_points fl_mul duration sampling_rate],
     Ok (Array (length h))).
Proof.
  intros Hw Hnum Hzip.
  assert (w < length h)%nat as Hlt by (by eapply lookup_lt_Some).
  unfold Rounded.chord.
  erewrite bind_ok by reflexivity.
  erewrite bind_ok by (by apply read_ok).
  erewrite bind_ok by (by apply idiv_ok).
  fold (normalised ws).
  erewrite bind_ok by (apply read_ok; by apply list_lookup_insert_eq).
  erewrite bind_ok
    by (unfold lift; rewrite rounded_mapM_sine_waves by done; reflexivity).
  destruct (zip freqs (normalised ws)) as [|fw fws] eqn:Hz.
  { exfalso. apply Hzip. unfold normalised in Hz.
    destruct freqs, ws; simpl in *; done. }
  rewrite fmap_cons. unfold sum_axis0, bind, alloc, ret.
  by rewrite sum_of_sines, length_insert.
Qed.

Lemma int_22050 : int (44100 * 0.5) = 22050%Z.
Proof. replace (44100 * 0.5) with (IZR 22050) by lra. apply int_IZR. Qed.

(** X8.  Let [num] be the integer the code computes for the number of
    envelope points, [int] of the rounded product of sampling rate and
    duration.  For a valid mode and [num >= 0], [fade_in] returns a new
    array of the length of its input: sample [i] is the input sample times
    the gain at the [i]-th of the [num] time points, as far as the
    envelope reaches, and the input sample from index [num] on. *)
Theorem fade_in_scales_first_samples fl_mul data duration sampling_rate mode h arr :
  h !! data = Some arr ->
  valid_mode mode ->
  (0 <= int (fl_mul sampling_rate duration))%Z ->
  exists arr',
    Rounded.fade_in fl_mul data duration sampling_rate mode h =
      (h ++ [arr'], Ok (length h)) /\
    length arr' = length arr /\
    (forall i, (Rounded.num_points fl_mul duration sampling_rate <= i)%nat ->
               arr' !! i = arr !! i) /\
    (forall i x t, arr !! i = Some x ->
                   Rounded.time_points fl_mul duration sampling_rate !! i = Some t ->
                   arr' !! i = Some (x * gain_in mode duration t)).
Proof.
  intros Hdata Hmode Hnum.
  pose proof (rounded_fade_in_returns fl_mul _ _ _ _ _ _ Hdata Hmode Hnum) as Hret.
  simpl in Hret. eexists. split; [exact Hret|].
  set (fade := gain_in mode duration
                 <$> Rounded.time_points fl_mul duration sampling_rate).
  destruct (fade_in_samples arr fade) as (Hlen & Hrest & Hhead).
  assert (length fade = Rounded.num_points fl_mul duration sampling_rate) as Hfade
      by (subst fade; by rewrite length_fmap, rounded_length_time_points).
  split; [exact Hlen|]. split.
  - intros i Hi. apply Hrest. lia.
  - intros i x t Hx Ht. apply Hhead; [done|].
    subst fade. by rewrite list_lookup_fmap, Ht.
Qed.

Lemma fade_in_scales_first_samples_witness :
  exists arr',
    Rounded.fade_in Rmult 0 0.5 44100 "linear" [[1; 2]] =
      ([[1; 2]; arr'], Ok 1%nat) /\
    length arr' = 2%nat.
Proof.
  destruct (fade_in_scales_first_samples Rmult 0 0.5 44100 "linear" [[1; 2]] [1; 2])
    as (arr' & H1 & H2 & _).
  - reflexivity.
  - by left.
  - rewrite int_22050. lia.
  - exists arr'. split; assumption.
Defined.

(** X9.  Let [m] be the integer the code computes for the number of
    envelope points, [int] of the rounded product of sampling rate and
    duration.  For a valid mode and [m >= 0], when envelope and signal
    overlap in [n = min(m, len(data)) >= 1] samples, [fade_out] returns a
    new array of the length of its input: the last [n] samples are the
    input samples times the gains at the last [n] of the [m] time points,
    the samples before them are the input's. *)
Theorem fade_out_scales_last_samples fl_mul data duration sampling_rate mode h arr :
  h !! data = Some arr ->
  valid_mode mode ->
  (0 <= int (fl_mul sampling_rate duration))%Z ->
  let m := Rounded.num_points fl_mul duration sampling_rate in
  let l := length arr in
  let n := (m `min` l)%nat in
  (1 <= n)%nat ->
  exists arr',
    Rounded.fade_out fl_mul data duration sampling_rate mode h =
      (h ++ [arr'], Ok (length h)) /\
    length arr' = l /\
    (forall i, (i < l - n)%nat -> arr' !! i = arr !! i) /\
    (forall j x t, arr !! (l - n + j)%nat = Some x ->
                   Rounded.time_points fl_mul duration sampling_rate
                     !! (m - n + j)%nat = Some t ->
                   arr' !! (l - n + j)%nat = Some (x * gain_out mode duration t)).
Proof.
  intros Hdata Hmode Hnum m l n Hn.
  set (fade := gain_out mode duration
                 <$> Rounded.time_points fl_mul duration sampling_rate).
  assert (length fade = m) as Hfade
      by (subst fade; by rewrite length_fmap, rounded_length_time_points).
  pose proof (rounded_fade_out_returns fl_mul _ _ _ _ _ _ Hdata Hmode Hnum) as Hret.
  simpl in Hret. fold fade in Hret. rewrite Hfade in Hret. fold l n in Hret.
  specialize (Hret Hn). eexists. split; [exact Hret|].
  destruct (fade_out_samples arr fade) as (Hlen & Hfront & Htail).
  rewrite Hfade in Hlen, Hfront, Htail. fold l n in Hlen, Hfront, Htail.
  split; [exact Hlen|]. split; [exact Hfront|].
  intros j x t Hx Ht. apply Htail; [done|].
  subst fade. by rewrite list_lookup_fmap, Ht.
Qed.

Lemma fade_out_scales_last_samples_witness :
  exists arr',
    Rounded.fade_out Rmult 0 0.5 44100 "linear" [[1; 2]] =
      ([[1; 2]; arr'], Ok 1%nat) /\
    length arr' = 2%nat.
Proof.
  destruct (fade_out_scales_last_samples Rmult 0 0.5 44100 "linear" [[1; 2]] [1; 2])
    as (arr' & H1 & H2 & _).
  - reflexivity.
  - by left.
  - rewrite int_22050. lia.
  - unfold Rounded.num_points. rewrite int_22050. simpl. lia.
  - exists arr'. split; assumption.
Defined.

(** X14.  Let [m] be the integer the code computes for the number of
    envelope points, [int] of the rounded product of sampling rate and
    duration.  For a valid mode and [m >= 0], when envelope and signal
    overlap in [n = min(m, len(data)) >= 1] samples, fading the signal in
    and then out, as the notebook does, returns a second new array of the
    input's length in which the samples between the two faded ends, those
    at the indices from [n] to [len(data) - n - 1], are those of the
    input. *)
Theorem fade_in_then_fade_out fl_mul data duration sampling_rate mode h arr :
  h !! data = Some arr ->
  valid_mode mode ->
  (0 <= int (fl_mul sampling_rate duration))%Z ->
  let l := length arr in
  let n := (Rounded.num_points fl_mul duration sampling_rate `min` l)%nat in
  (1 <= n)%nat ->
  exists arr1 arr2,
    bind (Rounded.fade_in fl_mul data duration sampling_rate mode)
         (fun faded => Rounded.fade_out fl_mul faded duration sampling_rate mode) h =
      (h ++ [arr1; arr2], Ok (S (length h))) /\
    length arr2 = l /\
    forall i, (n <= i < l - n)%nat -> arr2 !! i = arr !! i.
Proof.
  intros Hdata Hmode Hnum l n Hn.
  pose proof (rounded_fade_in_returns fl_mul _ _ _ _ _ _ Hdata Hmode Hnum) as Hin.
  simpl in Hin.
  destruct (fade_in_samples arr
              (gain_in mode duration
                 <$> Rounded.time_points fl_mul duration sampling_rate))
    as (Hlen1 & Hrest1 & _).
  rewrite length_fmap, rounded_length_time_points in Hin, Hlen1, Hrest1.
  fold l n in Hin, Hlen1, Hrest1.
  set (arr1 := zip_with Rmult (take n arr) _ ++ drop n arr) in *.
  pose proof (rounded_fade_out_returns fl_mul (length h) duration sampling_rate
                mode (h ++ [arr1]) arr1 (lookup_new h arr1) Hmode Hnum) as Hout.
  simpl in Hout.
  set (fade := gain_out mode duration
                 <$> Rounded.time_points fl_mul duration sampling_rate) in *.
  assert (length fade = Rounded.num_points fl_mul duration sampling_rate) as Hfade
      by (subst fade; by rewrite length_fmap, rounded_length_time_points).
  rewrite Hfade, Hlen1 in Hout. fold l n in Hout. specialize (Hout Hn).
  eexists arr1, _. split.
  - erewrite bind_ok by exact Hin. rewrite Hout.
    by rewrite length_app, <- app_assoc, Nat.add_1_r.
  - destruct (fade_out_samples arr1 fade) as (Hlen2 & Hfront & _).
    rewrite Hfade, Hlen1 in Hlen2, Hfront. fold l n in Hlen2, Hfront.
    split; [exact Hlen2|].
    intros i Hi. rewrite Hfront by lia. apply Hrest1. lia.
Qed.

Lemma fade_in_then_fade_out_witness :
  exists arr1 arr2,
    bind (Rounded.fade_in Rmult 0 0.5 4 "linear")
         (fun faded => Rounded.fade_out Rmult faded 0.5 4 "linear")
         [[1; 2; 3; 4; 5]] =
      ([[1; 2; 3; 4; 5]; arr1; arr2], Ok 2%nat) /\
    length arr2 = 5%nat /\
    arr2 !! 2%nat = Some 3.
Proof.
  assert (int (4 * 0.5) = 2%Z) as Hint
      by (replace (4 * 0.5) with (IZR 2) by lra; apply int_IZR).
  destruct (fade_in_then_fade_out Rmult 0 0.5 4 "linear"
              [[1; 2; 3; 4; 5]] [1; 2; 3; 4; 5])
    as (arr1 & arr2 & H1 & H2 & H3).
  - reflexivity.
  - by left.
  - rewrite Hint. lia.
  - unfold Rounded.num_points. rewrite Hint. simpl. lia.
  - exists arr1, arr2. split; [exact H1|]. split; [exact H2|].
    rewrite H3; [reflexivity|].
    unfold Rounded.num_points. rewrite Hint. simpl. lia.
Defined.

(** X15.  Let [num] be the integer the code computes, [int] of the
    rounded product of sampling rate and duration.  When [num >= 0],
    [sine_wave] returns [num] samples, none larger in absolute value than
    the amplitude; when [num < 0] it raises the [ValueError] of
    [np.linspace]. *)
Theorem sine_wave_samples fl_mul f a duration sampling_rate :
  let num := int (fl_mul sampling_rate duration) in
  ((0 <= num)%Z ->
   exists xs, Rounded.sine_wave fl_mul f a duration sampling_rate = Ok xs /\
              length xs = Z.to_nat num /\
              forall x, x ∈ xs -> Rabs x <= Rabs a) /\
  ((num < 0)%Z ->
   Rounded.sine_wave fl_mul f a duration sampling_rate =
     Raise (ValueError "Number of samples, num, must be non-negative.")).
Proof.
  intros num. split.
  - intros Hnum. eexists. split; [by apply rounded_sine_wave_ok|]. split.
    + by rewrite length_fmap, rounded_length_time_points.
    + intros x Hx. apply list_elem_of_fmap in Hx as (t & -> & _).
      rewrite Rabs_mult. pose proof (Rabs_pos a).
      assert (Rabs (sin (2 * PI * f * t)) <= 1)
        by (apply Rabs_le; pose proof (SIN_bound (2 * PI * f * t)); lra).
      nra.
  - intros Hnum. unfold Rounded.sine_wave, linspace. fold num.
    destruct (Z.ltb_spec num 0); [done|lia].
Qed.

(** X17.  Let [num] be the integer the code computes, [int] of the
    rounded product of sampling rate and duration.  With a non-empty list
    of frequencies, [num >= 0] and a weights array whose sum is not 0,
    [chord] normalises the weights in the array it was given and returns
    a new array of [num] samples: sample [j] is the sum over the pairs of
    a frequency and its normalised weight of
    [amplitude * weight * sin(2 * pi * f * t[j])]. *)
Theorem chord_is_weighted_sum fl_mul freqs a duration sampling_rate h w ws :
  h !! w = Some ws ->
  sum ws <> 0 ->
  freqs <> [] ->
  (0 <= int (fl_mul sampling_rate duration))%Z ->
  exists res,
    Rounded.chord fl_mul freqs a duration sampling_rate (Some w) h =
      (<[w := normalised ws]> h ++ [res], Ok (Array (length h))) /\
    length res = Z.to_nat (int (fl_mul sampling_rate duration)) /\
    forall j t, Rounded.time_points fl_mul duration sampling_rate !! j = Some t ->
                res !! j = Some (mix_at a (zip freqs (normalised ws)) t).
Proof.
  intros Hw Hs Hf Hnum.
  assert (zip freqs ws <> []) as Hzip.
  { destruct freqs, ws; done. }
  eexists. split; [by apply rounded_chord_with_weights|]. split.
  - by rewrite length_fmap, rounded_length_time_points.
  - intros j t Ht. by rewrite list_lookup_fmap, Ht.
Qed.

Lemma chord_is_weighted_sum_witness :
  exists res,
    Rounded.chord Rmult [440; 660] 0.3 0.5 44100 (Some 0%nat) [[1; 3]] =
      ([normalised [1; 3]; res], Ok (Array 1)) /\
    length res = Z.to_nat 22050.
Proof.
  destruct (chord_is_weighted_sum Rmult [440; 660] 0.3 0.5 44100 [[1; 3]] 0 [1; 3])
    as (res & H1 & H2 & _).
  - reflexivity.
  - unfold sum. simpl. lra.
  - discriminate.
  - rewrite int_22050. lia.
  - exists res. split; [exact H1|]. rewrite H2, int_22050. reflexivity.
Defined.

(** X18.  Let [num] be the integer the code computes, [int] of the
    rounded product of sampling rate and duration.  Without weights, for
    a non-empty list of frequencies and [num >= 0], [chord] is the plain
    superposition of the frequencies at the given amplitude: sample [j] of
    the new array of [num] samples is the sum over [f] of
    [amplitude * sin(2 * pi * f * t[j])], the value the streaming callback
    computes at the same time.  The array of ones it made for the weights
    stays in the store. *)
Theorem chord_default_weights fl_mul freqs a duration sampling_rate h :
  freqs <> [] ->
  (0 <= int (fl_mul sampling_rate duration))%Z ->
  exists res,
    Rounded.chord fl_mul freqs a duration sampling_rate None h =
      (h ++ [replicate (length freqs) 1; res], Ok (Array (S (length h)))) /\
    length res = Z.to_nat (int (fl_mul sampling_rate duration)) /\
    forall j t, Rounded.time_points fl_mul duration sampling_rate !! j = Some t ->
                res !! j = Some (Stream.sines_at a freqs t).
Proof.
  intros Hf Hnum.
  set (ones := replicate (length freqs) 1).
  assert (Rounded.chord fl_mul freqs a duration sampling_rate None h =
          Rounded.chord fl_mul freqs a duration sampling_rate
                        (Some (length h)) (h ++ [ones])) as ->
      by reflexivity.
  assert (length freqs <> 0%nat) as Hk by (by destruct freqs).
  rewrite (rounded_chord_with_weights fl_mul freqs a duration sampling_rate
             (h ++ [ones]) (length h) ones (lookup_new h ones) Hnum)
    by (subst ones; destruct freqs; done).
  subst ones. rewrite normalised_ones, insert_new by done.
  eexists. split.
  - rewrite <- app_assoc, length_app, Nat.add_1_r. reflexivity.
  - split; [by rewrite length_fmap, rounded_length_time_points|].
    intros j t Ht. rewrite list_lookup_fmap, Ht. simpl. by rewrite mix_at_ones.
Qed.

Lemma chord_default_weights_witness :
  exists res,
    Rounded.chord Rmult [440; 660] 0.3 0.5 44100 None [] =
      ([[1; 1]; res], Ok (Array 1)) /\
    length res = Z.to_nat 22050.
Proof.
  destruct (chord_default_weights Rmult [440; 660] 0.3 0.5 44100 [])
    as (res & H1 & H2 & _).
  - discriminate.
  - rewrite int_22050. lia.
  - exists res. split; [exact H1|]. rewrite H2, int_22050. reflexivity.
Defined.

End RoundedFacts.
